(** * Container log shipping: a model of [main.py]

    The program starts one Docker container, reads its output line by line
    and submits every line to CloudWatch Logs, after making sure the log
    group and the log stream exist.

    The Docker daemon and the CloudWatch service are outside the program.
    They are modelled by an environment [Env] whose answers may depend on
    everything that happened before (the history of calls).  A computation
    reads the history and produces an outcome together with the calls it
    made, in chronological order.

    [get_cloudwatch_logs] is never called by the program and is left out. *)

From Stdlib Require Import ZArith NArith.
From Stdlib.Strings Require Import Byte.
From stdpp Require Import base option list strings gmap.

Local Open Scope string_scope.
Local Open Scope list_scope.

(** ** Exceptions and outcomes *)

(** The exception classes the program distinguishes.  [ClientError] is
    botocore's, carrying [response["Error"]["Code"]] (botocore puts a code
    in every [ClientError] it raises; one built by hand without a code is
    not represented); [PyException] stands for every other subclass of
    [Exception]; [KeyboardInterrupt] and [SystemExit] derive from
    [BaseException] only. *)
Inductive exn : Type :=
| ClientError (code : string)
| UnicodeDecodeError
| PyException (name : string)
| KeyboardInterrupt
| SystemExit (code : Z).

(** [isinstance(e, Exception)] *)
Definition is_Exception (e : exn) : bool :=
  match e with
  | ClientError _ | UnicodeDecodeError | PyException _ => true
  | KeyboardInterrupt | SystemExit _ => false
  end.

Inductive outcome (A : Type) : Type :=
| Returns (a : A)
| Raises (e : exn).
Arguments Returns {A} a.
Arguments Raises {A} e.

Definition returned {A} (o : outcome A) : bool :=
  match o with Returns _ => true | Raises _ => false end.

(** ** Data *)

Definition bytes : Type := list byte.

(** A Python [str]: a sequence of Unicode code points. *)
Definition pystr : Type := list N.

(** One element of the [logEvents] argument of [put_log_events]. *)
Record log_event : Type := LogEvent {
  timestamp : Z;
  message : pystr
}.

(** The [argparse.Namespace] built by [parse_arguments]. *)
Record Namespace : Type := {
  docker_image : string;
  bash_command : string;
  aws_cloudwatch_group : string;
  aws_cloudwatch_stream : string;
  aws_access_key_id : string;
  aws_secret_access_key : string;
  aws_region : string
}.

(** The client returned by [boto3.client("logs", ...)]. *)
Record CloudWatchLogsClient : Type := {
  region_name : string;
  client_access_key_id : string;
  client_secret_access_key : string
}.

(** [docker.models.containers.Container]: an opaque handle with an [id]. *)
Record Container : Type := { container_id : string }.

(** The answer of [put_log_events], typed as the annotated client types it:
    [ResponseMetadata], when present, is a dictionary; the remaining
    top-level keys are kept in [resp_fields]. *)
Record response : Type := {
  resp_metadata : option (gmap string string);
  resp_fields : gmap string string
}.

(** ["Failed" in response] *)
Definition has_Failed (r : response) : bool :=
  bool_decide (is_Some (resp_fields r !! "Failed")).

(** [response.get("ResponseMetadata", {}).get("RequestId")] *)
Definition request_id (r : response) : option string :=
  default ∅ (resp_metadata r) !! "RequestId".

(** What [container.logs(stream=True)] yields: the chunks read until the
    stream ends, and how it ends ([None]: the container exited and the
    stream closed; [Some e]: reading raised [e]). *)
Record log_stream : Type := {
  stream_lines : list bytes;
  stream_end : option exn
}.

(** ** Calls and their history *)

Inductive level : Type := INFO | ERROR.

Inductive log_arg : Type :=
| ArgStr (s : string)
| ArgOptStr (s : option string)
| ArgBytes (b : bytes)
| ArgContainer (c : Container)
| ArgResponse (r : response).

(** Every interaction of the program with the outside, with its result.
    [EvLog lvl fmt args exc] is a record handed to [logger]; [exc] is the
    exception attached by [logger.exception]. *)
Inductive event : Type :=
| EvParseArguments (r : outcome Namespace)
| EvBotoClient (c : CloudWatchLogsClient) (r : outcome unit)
| EvCreateLogGroup (g : string) (r : outcome unit)
| EvCreateLogStream (g s : string) (r : outcome unit)
| EvPutLogEvents (g s : string) (evs : list log_event) (r : outcome response)
| EvFromEnv (r : outcome unit)
| EvRun (image : string) (command : list string) (detach : bool)
        (r : outcome Container)
| EvLogs (c : Container) (s : log_stream)
| EvStop (c : Container) (r : outcome unit)
| EvRemove (c : Container) (r : outcome unit)
| EvLog (lvl : level) (fmt : string) (args : list log_arg) (exc : option exn).

Definition history : Type := list event.

(** The collaborators.  Each answer is a function of the history, so the
    environment may be stateful in any way it likes. *)
Record Env : Type := {
  parse_args : history → outcome Namespace;
  boto3_client : history → CloudWatchLogsClient → outcome unit;
  create_log_group : history → CloudWatchLogsClient → string → outcome unit;
  create_log_stream :
    history → CloudWatchLogsClient → string → string → outcome unit;
  put_log_events :
    history → CloudWatchLogsClient → string → string → list log_event →
    outcome response;
  (** the value of [int(time.time() * 1000)] *)
  epoch_ms : history → Z;
  docker_from_env : history → outcome unit;
  containers_run :
    history → string → list string → bool → outcome Container;
  container_logs : history → Container → log_stream;
  container_stop : history → Container → outcome unit;
  container_remove : history → Container → outcome unit
}.

(** ** Computations *)

Definition M (A : Type) : Type := history → outcome A * list event.

Definition run {A} (m : M A) (h : history) : outcome A * list event := m h.
Definition result {A} (m : M A) (h : history) : outcome A := (m h).1.
Definition trace {A} (m : M A) (h : history) : list event := (m h).2.

#[export] Instance M_ret : MRet M := λ A a _, (Returns a, []).

#[export] Instance M_bind : MBind M := λ A B f m h,
  match m h with
  | (Returns a, t1) => let '(o, t2) := f a (h ++ t1) in (o, t1 ++ t2)
  | (Raises e, t1) => (Raises e, t1)
  end.

(** [raise e] *)
Definition raise {A} (e : exn) : M A := λ _, (Raises e, []).

(** A call to a collaborator: ask, record the call with its result. *)
Definition call {A} (ask : history → outcome A) (ev : outcome A → event) : M A :=
  λ h, (ask h, [ev (ask h)]).

(** [try: body / finally: cleanup].  The cleanup always runs; when it raises,
    its exception is the one that leaves the statement. *)
Definition try_finally {A} (body : M A) (cleanup : M unit) : M A := λ h,
  let '(o, t1) := body h in
  let '(c, t2) := cleanup (h ++ t1) in
  (match c with Returns _ => o | Raises e => Raises e end, t1 ++ t2).

(** [try: body / except ...: handler] where [handler e] is [None] for an
    exception no clause matches. *)
Definition try_except {A} (body : M A) (handler : exn → option (M A)) : M A :=
  λ h,
  match body h with
  | (Returns a, t1) => (Returns a, t1)
  | (Raises e, t1) =>
      match handler e with
      | Some k => let '(o, t2) := k (h ++ t1) in (o, t1 ++ t2)
      | None => (Raises e, t1)
      end
  end.

(** [for x in xs: body x], over a stream that may end by raising.  The
    stream is the finite sequence of chunks read before it ends; a container
    that prints for ever without being interrupted has no run here. *)
Fixpoint for_each (xs : list bytes) (fin : option exn) (body : bytes → M unit)
  : M unit :=
  match xs with
  | [] => match fin with None => mret tt | Some e => raise e end
  | x :: xs' => body x;; for_each xs' fin body
  end.

(** ** Python's strict UTF-8 codec

    [bytes.decode("utf-8")] accepts exactly the well-formed sequences of the
    Unicode Standard (no overlong forms, no surrogates, nothing above
    U+10FFFF) and raises [UnicodeDecodeError] on anything else. *)

Definition in_range (lo hi n : N) : bool := ((lo <=? n) && (n <=? hi))%N.

Definition is_cont (n : N) : bool := in_range 0x80 0xBF n.

(** Range of the second byte, by lead byte. *)
Definition second_ok (n0 n1 : N) : bool :=
  if (n0 =? 0xE0)%N then in_range 0xA0 0xBF n1
  else if (n0 =? 0xED)%N then in_range 0x80 0x9F n1
  else if (n0 =? 0xF0)%N then in_range 0x90 0xBF n1
  else if (n0 =? 0xF4)%N then in_range 0x80 0x8F n1
  else is_cont n1.

Fixpoint utf8_decode (bs : bytes) : option pystr :=
  match bs with
  | [] => Some []
  | b0 :: r0 =>
      let n0 := Byte.to_N b0 in
      if (n0 <? 0x80)%N then cons n0 <$> utf8_decode r0
      else if in_range 0xC2 0xDF n0 then
        match r0 with
        | b1 :: r1 =>
            let n1 := Byte.to_N b1 in
            if is_cont n1
            then cons ((n0 - 0xC0) * 64 + (n1 - 0x80))%N <$> utf8_decode r1
            else None
        | _ => None
        end
      else if in_range 0xE0 0xEF n0 then
        match r0 with
        | b1 :: b2 :: r2 =>
            let n1 := Byte.to_N b1 in
            let n2 := Byte.to_N b2 in
            if second_ok n0 n1 && is_cont n2
            then cons ((n0 - 0xE0) * 4096 + (n1 - 0x80) * 64 + (n2 - 0x80))%N
                   <$> utf8_decode r2
            else None
        | _ => None
        end
      else if in_range 0xF0 0xF4 n0 then
        match r0 with
        | b1 :: b2 :: b3 :: r3 =>
            let n1 := Byte.to_N b1 in
            let n2 := Byte.to_N b2 in
            let n3 := Byte.to_N b3 in
            if second_ok n0 n1 && is_cont n2 && is_cont n3
            then cons ((n0 - 0xF0) * 262144 + (n1 - 0x80) * 4096
                       + (n2 - 0x80) * 64 + (n3 - 0x80))%N
                   <$> utf8_decode r3
            else None
        | _ => None
        end
      else None
  end.

(** [line.decode("utf-8")] *)
Definition decode (line : bytes) : M pystr :=
  match utf8_decode line with
  | Some s => mret s
  | None => raise UnicodeDecodeError
  end.

(** ** The program *)

Section Program.

Context (env : Env).

Definition logger_info (fmt : string) (args : list log_arg) : M unit :=
  λ _, (Returns tt, [EvLog INFO fmt args None]).

Definition logger_error (fmt : string) (args : list log_arg) : M unit :=
  λ _, (Returns tt, [EvLog ERROR fmt args None]).

(** [logger.exception(fmt)] inside a handler for [e] *)
Definition logger_exception (fmt : string) (e : exn) : M unit :=
  λ _, (Returns tt, [EvLog ERROR fmt [] (Some e)]).

(** The [finally] suite of [managed_container]. *)
Definition stop_and_remove (container : Container) (auto_remove : bool)
  : M unit :=
  call (λ h, container_stop env h container) (EvStop container);;
  (if auto_remove
   then call (λ h, container_remove env h container) (EvRemove container)
   else mret tt);;
  logger_info "Docker container stopped and removed: %s"
    [ArgStr (container_id container)].

(** [with managed_container(image, command, detach, auto_remove) as c: scope c]

    The generator runs up to its [yield] on entry; the block's outcome is
    sent back into it, so the [finally] suite runs on every way out of the
    block, and an exception it raises replaces the block's own.
    [containers.run] is taken to return a container handle, as it does with
    [detach=True], the only value [main] passes. *)
Definition managed_container {A} (image command : string)
    (detach auto_remove : bool) (scope : Container → M A) : M A :=
  call (docker_from_env env) EvFromEnv;;
  let command := ["/bin/sh"; "-c"; command] in
  container ← call (λ h, containers_run env h image command detach)
                   (EvRun image command detach);
  try_finally
    (logger_info "Docker container started: %s" [ArgContainer container];;
     scope container)
    (stop_and_remove container auto_remove).

(** [logging.basicConfig(...)]: configures the logger, nothing else. *)
Definition setup_logging : M unit := mret tt.

Definition parse_arguments : M Namespace :=
  call (parse_args env) EvParseArguments.

Definition already_exists (code : string) : bool :=
  String.eqb code "ResourceAlreadyExistsException".

(** The decorator: [handle_cloudwatch_errors func kwargs] is the wrapper
    called with keyword arguments [kwargs].  It returns [Some v] when [func]
    returns [v] and [None] when it falls off its end after a suppressed
    error. *)
Definition handle_cloudwatch_errors {A} (func : M A)
    (kwargs : gmap string string) : M (option A) :=
  try_except (v ← func; mret (Some v))
    (λ e,
      match e with
      | ClientError code =>
          Some (if already_exists code
                then logger_info "Resource already exists: %s"
                       [ArgStr (default "Unknown" (kwargs !! "group_name"))];;
                     mret None
                else logger_exception "AWS request failed: %s" e;;
                     raise e)
      | _ =>
          if is_Exception e
          then Some (logger_exception "Unexpected error occurred" e;;
                     raise e)
          else None
      end).

(** Every call site passes its arguments positionally, so the wrapper's
    [kwargs] is empty. *)
Definition create_or_verify_cloudwatch_log_group
    (cloudwatch : CloudWatchLogsClient) (group_name : string)
  : M (option unit) :=
  handle_cloudwatch_errors
    (call (λ h, create_log_group env h cloudwatch group_name)
          (EvCreateLogGroup group_name))
    ∅.

Definition create_or_verify_cloudwatch_log_stream
    (cloudwatch : CloudWatchLogsClient) (group_name stream_name : string)
  : M (option unit) :=
  handle_cloudwatch_errors
    (call (λ h, create_log_stream env h cloudwatch group_name stream_name)
          (EvCreateLogStream group_name stream_name))
    ∅.

(** The undecorated body of [write_logs_to_cloudwatch].  The arguments of
    [put_log_events] are evaluated left to right: the clock is read, then
    the line is decoded, then the call is made. *)
Definition write_logs (cloudwatch : CloudWatchLogsClient) (args : Namespace)
    (line : bytes) : M unit :=
  ts ← (λ h, (Returns (epoch_ms env h), []));
  msg ← decode line;
  let group := aws_cloudwatch_group args in
  let stream := aws_cloudwatch_stream args in
  let events := [LogEvent ts msg] in
  response ← call (λ h, put_log_events env h cloudwatch group stream events)
                  (EvPutLogEvents group stream events);
  if has_Failed response
  then logger_error "Failed to send log to CloudWatch: %s"
         [ArgResponse response]
  else logger_info "Successfully sent log to CloudWatch: %s"
         [ArgOptStr (request_id response)].

Definition write_logs_to_cloudwatch (cloudwatch : CloudWatchLogsClient)
    (args : Namespace) (line : bytes) : M (option unit) :=
  handle_cloudwatch_errors (write_logs cloudwatch args line) ∅.

(** The [for] loop of [main], over the lines the stream yields. *)
Definition forward_lines (cloudwatch : CloudWatchLogsClient) (args : Namespace)
    (lines : list bytes) (fin : option exn) : M unit :=
  for_each lines fin
    (λ line,
      logger_info "Container log: %s" [ArgBytes line];;
      write_logs_to_cloudwatch cloudwatch args line;;
      mret tt).

(** The body of the [with] block of [main]. *)
Definition forward_logs (cloudwatch : CloudWatchLogsClient) (args : Namespace)
    (container : Container) : M unit :=
  stream ← (λ h, let s := container_logs env h container in
                 (Returns s, [EvLogs container s]));
  forward_lines cloudwatch args (stream_lines stream) (stream_end stream).

(** The arguments [main] passes to [boto3.client]. *)
Definition client_of (args : Namespace) : CloudWatchLogsClient :=
  {| region_name := aws_region args;
     client_access_key_id := aws_access_key_id args;
     client_secret_access_key := aws_secret_access_key args |}.

Definition main : M unit :=
  setup_logging;;
  args ← parse_arguments;
  let cloudwatch := client_of args in
  call (λ h, boto3_client env h cloudwatch) (EvBotoClient cloudwatch);;
  create_or_verify_cloudwatch_log_group cloudwatch (aws_cloudwatch_group args);;
  create_or_verify_cloudwatch_log_stream cloudwatch
    (aws_cloudwatch_group args) (aws_cloudwatch_stream args);;
  managed_container (docker_image args) (bash_command args) true true
    (forward_logs cloudwatch args).

(** The status the interpreter exits with after running [main()] as the
    script does, where the outcome of [main] alone settles it: 0 when
    [main] returns, 1 when an [Exception] leaves it (the interpreter prints
    the traceback).  After a [SystemExit] or an interrupt the status
    depends on the payload and on the platform, and is left open. *)
Definition exit_status (h : history) : option Z :=
  match result main h with
  | Returns _ => Some 0%Z
  | Raises e => if is_Exception e then Some 1%Z else None
  end.

End Program.

(** ** Reading a trace *)

Definition is_put (ev : event) : bool :=
  match ev with EvPutLogEvents _ _ _ _ => true | _ => false end.

Definition is_run (ev : event) : bool :=
  match ev with EvRun _ _ _ _ => true | _ => false end.

Definition is_stop (ev : event) : bool :=
  match ev with EvStop _ _ => true | _ => false end.

Definition is_remove (ev : event) : bool :=
  match ev with EvRemove _ _ => true | _ => false end.

Definition is_log (ev : event) : bool :=
  match ev with EvLog _ _ _ _ => true | _ => false end.

(** The [put_log_events] calls of a trace, in order: group, stream, events. *)
Definition put_calls (t : list event) : list (string * string * list log_event) :=
  omap (λ ev, match ev with
              | EvPutLogEvents g s evs _ => Some (g, s, evs)
              | _ => None
              end) t.

(** The [stop] and [remove] calls of a trace, in order. *)
Definition cleanup_calls (t : list event) : list event :=
  filter (λ ev, is_stop ev || is_remove ev) t.

(** The [run] calls of a trace. *)
Definition run_calls (t : list event) : list event :=
  filter (λ ev, is_run ev) t.

(** The one error the decorator suppresses: a [ClientError] whose code is
    [ResourceAlreadyExistsException]. *)
Definition is_already_exists (e : exn) : bool :=
  match e with
  | ClientError code => already_exists code
  | _ => false
  end.

(** A kind of call that is neither a log record nor a sink write. *)
Definition apart (P : event → bool) : Prop :=
  ∀ ev, is_log ev || is_put ev = true → P ev = false.

(** A provisioning answer the program accepts: success, or the error the
    decorator suppresses. *)
Definition accepted (r : outcome unit) : bool :=
  match r with
  | Returns _ => true
  | Raises e => is_already_exists e
  end.

(** A sink that does not forget: once a request to create a group (a
    stream) was answered by success or by the already-exists error, a later
    request for the same name is answered by one of the two as well. *)
Definition remembers_groups (env : Env) : Prop :=
  ∀ h cw g r,
    EvCreateLogGroup g r ∈ h → accepted r = true →
    accepted (create_log_group env h cw g) = true.

Definition remembers_streams (env : Env) : Prop :=
  ∀ h cw g s r,
    EvCreateLogStream g s r ∈ h → accepted r = true →
    accepted (create_log_stream env h cw g s) = true.

(** [put_log_events] was called for [line]: one event, holding its text. *)
Definition submits (g s : string) (call : string * string * list log_event)
    (line : bytes) : Prop :=
  ∃ ts msg, call = (g, s, [LogEvent ts msg]) ∧ utf8_decode line = Some msg.

(** The record the loop logs before it forwards [line]. *)
Definition log_line (line : bytes) : event :=
  EvLog INFO "Container log: %s" [ArgBytes line] None.

(** *** What the container scope logs *)

Definition started_record (c : Container) : event :=
  EvLog INFO "Docker container started: %s" [ArgContainer c] None.

Definition stopped_record (c : Container) : event :=
  EvLog INFO "Docker container stopped and removed: %s"
    [ArgStr (container_id c)] None.

(** The argument vector [managed_container] hands to [containers.run]. *)
Definition shell_wrapped (command : string) : list string :=
  ["/bin/sh"; "-c"; command].

(** *** What the decorator and the writer log *)

(** The records the wrapper logs for an exception [e] of the wrapped
    function, called as the program calls it (no keyword arguments, hence
    ["Unknown"]). *)
Definition failure_record (e : exn) : list event :=
  match e with
  | ClientError code =>
      if already_exists code
      then [EvLog INFO "Resource already exists: %s" [ArgStr "Unknown"] None]
      else [EvLog ERROR "AWS request failed: %s" [] (Some e)]
  | _ =>
      if is_Exception e
      then [EvLog ERROR "Unexpected error occurred" [] (Some e)]
      else []
  end.

(** What the wrapper makes of an exception: [None] when it suppresses it. *)
Definition reraised (e : exn) : option exn :=
  match e with
  | ClientError code => if already_exists code then None else Some e
  | _ => Some e
  end.

(** The record logged after a write the sink answered. *)
Definition sent_record (resp : response) : event :=
  if has_Failed resp
  then EvLog ERROR "Failed to send log to CloudWatch: %s" [ArgResponse resp]
         None
  else EvLog INFO "Successfully sent log to CloudWatch: %s"
         [ArgOptStr (request_id resp)] None.

(** *** The shape of a forwarding run

    [forwarding g s lines fin o t]: [t] is a trace the loop can leave on
    [lines] (a stream ending as [fin] says) and [o] the way it ends.  Every
    run of [forward_lines] has this shape, whatever the collaborators answer
    ([forward_lines_shape] below). *)
Inductive forwarding (g s : string)
  : list bytes → option exn → outcome unit → list event → Prop :=
| fw_done :
    forwarding g s [] None (Returns tt) []
| fw_broken e :
    forwarding g s [] (Some e) (Raises e) []
| fw_undecodable line rest fin :
    utf8_decode line = None →
    forwarding g s (line :: rest) fin (Raises UnicodeDecodeError)
      (log_line line :: failure_record UnicodeDecodeError)
| fw_sent line rest fin ts msg resp o t :
    utf8_decode line = Some msg →
    forwarding g s rest fin o t →
    forwarding g s (line :: rest) fin o
      (log_line line
       :: EvPutLogEvents g s [LogEvent ts msg] (Returns resp)
       :: sent_record resp :: t)
| fw_suppressed line rest fin ts msg e o t :
    utf8_decode line = Some msg →
    reraised e = None →
    forwarding g s rest fin o t →
    forwarding g s (line :: rest) fin o
      (log_line line
       :: EvPutLogEvents g s [LogEvent ts msg] (Raises e)
       :: failure_record e ++ t)
| fw_failed line rest fin ts msg e :
    utf8_decode line = Some msg →
    reraised e = Some e →
    forwarding g s (line :: rest) fin (Raises e)
      (log_line line
       :: EvPutLogEvents g s [LogEvent ts msg] (Raises e)
       :: failure_record e).

(** *** The shape of a whole run

    The same for [main]: the traces it can leave, by the point where the
    run ends ([main_run_shape] below). *)

(** What a decorated call logs after the sink answered [r]. *)
Definition answer_record {A} (r : outcome A) : list event :=
  match r with
  | Returns _ => []
  | Raises e => failure_record e
  end.

(** Arguments parsed and client built. *)
Definition connected (args : Namespace) : list event :=
  [EvParseArguments (Returns args); EvBotoClient (client_of args) (Returns tt)].

(** Both provisioning calls made, answered [rg] and [rs]. *)
Definition provisioned (args : Namespace) (rg rs : outcome unit) : list event :=
  connected args
  ++ EvCreateLogGroup (aws_cloudwatch_group args) rg :: answer_record rg
  ++ EvCreateLogStream (aws_cloudwatch_group args)
       (aws_cloudwatch_stream args) rs :: answer_record rs.

(** The container of [args] started as [c], its stream opened as [strm]. *)
Definition streaming (args : Namespace) (c : Container) (strm : log_stream)
  : list event :=
  [EvFromEnv (Returns tt);
   EvRun (docker_image args) (shell_wrapped (bash_command args)) true
     (Returns c);
   started_record c;
   EvLogs c strm].

(** The ways the [finally] suite of [main]'s scope can go. *)
Inductive cleaned (c : Container) : outcome unit → list event → Prop :=
| cl_stop_failed e :
    cleaned c (Raises e) [EvStop c (Raises e)]
| cl_remove_failed e :
    cleaned c (Raises e) [EvStop c (Returns tt); EvRemove c (Raises e)]
| cl_done :
    cleaned c (Returns tt)
      [EvStop c (Returns tt); EvRemove c (Returns tt); stopped_record c].

Inductive main_shape : outcome unit → list event → Prop :=
| ms_no_args e :
    main_shape (Raises e) [EvParseArguments (Raises e)]
| ms_no_client args e :
    main_shape (Raises e)
      [EvParseArguments (Returns args);
       EvBotoClient (client_of args) (Raises e)]
| ms_no_group args e :
    is_already_exists e = false →
    main_shape (Raises e)
      (connected args
       ++ EvCreateLogGroup (aws_cloudwatch_group args) (Raises e)
          :: failure_record e)
| ms_no_stream args rg e :
    accepted rg = true →
    is_already_exists e = false →
    main_shape (Raises e)
      (connected args
       ++ EvCreateLogGroup (aws_cloudwatch_group args) rg :: answer_record rg
       ++ EvCreateLogStream (aws_cloudwatch_group args)
            (aws_cloudwatch_stream args) (Raises e) :: failure_record e)
| ms_no_docker args rg rs e :
    accepted rg = true → accepted rs = true →
    main_shape (Raises e) (provisioned args rg rs ++ [EvFromEnv (Raises e)])
| ms_no_container args rg rs e :
    accepted rg = true → accepted rs = true →
    main_shape (Raises e)
      (provisioned args rg rs
       ++ [EvFromEnv (Returns tt);
           EvRun (docker_image args) (shell_wrapped (bash_command args)) true
             (Raises e)])
| ms_forwarded args rg rs c strm o tl oc tc :
    accepted rg = true → accepted rs = true →
    forwarding (aws_cloudwatch_group args) (aws_cloudwatch_stream args)
      (stream_lines strm) (stream_end strm) o tl →
    cleaned c oc tc →
    main_shape (match oc with Returns _ => o | Raises e => Raises e end)
      (provisioned args rg rs ++ streaming args c strm ++ tl ++ tc).

(** ** Concrete collaborators, for examples *)

Definition hello : bytes := ["h"; "e"; "l"; "l"; "o"]%byte.

(** A lone byte 0xFF: not UTF-8. *)
Definition garbage : bytes := [xff].

Definition demo_args : Namespace := {|
  docker_image := "busybox";
  bash_command := "echo hello";
  aws_cloudwatch_group := "g1";
  aws_cloudwatch_stream := "s1";
  aws_access_key_id := "id";
  aws_secret_access_key := "secret";
  aws_region := "us-west-2"
|}.

Definition demo_client : CloudWatchLogsClient := {|
  region_name := "us-west-2";
  client_access_key_id := "id";
  client_secret_access_key := "secret"
|}.

Definition demo_container : Container := {| container_id := "c1" |}.

Definition accepted_response : response := {|
  resp_metadata := Some {[ "RequestId" := "req-1" ]};
  resp_fields := ∅
|}.

Definition failed_response : response := {|
  resp_metadata := Some {[ "RequestId" := "req-2" ]};
  resp_fields := {[ "Failed" := "1" ]}
|}.

(** Everything works; the container prints [lines] and exits. *)
Definition nominal (lines : list bytes) : Env := {|
  parse_args := λ _, Returns demo_args;
  boto3_client := λ _ _, Returns tt;
  create_log_group := λ _ _ _, Returns tt;
  create_log_stream := λ _ _ _ _, Returns tt;
  put_log_events := λ _ _ _ _ _, Returns accepted_response;
  epoch_ms := λ h, (1700000000000 + Z.of_nat (length h))%Z;
  docker_from_env := λ _, Returns tt;
  containers_run := λ _ _ _ _, Returns demo_container;
  container_logs := λ _ _, {| stream_lines := lines; stream_end := None |};
  container_stop := λ _ _, Returns tt;
  container_remove := λ _ _, Returns tt
|}.

(** As [e], with another [put_log_events]. *)
Definition with_put
    (put : history → CloudWatchLogsClient → string → string →
           list log_event → outcome response) (e : Env) : Env := {|
  parse_args := parse_args e;
  boto3_client := boto3_client e;
  create_log_group := create_log_group e;
  create_log_stream := create_log_stream e;
  put_log_events := put;
  epoch_ms := epoch_ms e;
  docker_from_env := docker_from_env e;
  containers_run := containers_run e;
  container_logs := container_logs e;
  container_stop := container_stop e;
  container_remove := container_remove e
|}.

(** As [e], with another [stop]. *)
Definition with_stop (stop : history → Container → outcome unit) (e : Env)
  : Env := {|
  parse_args := parse_args e;
  boto3_client := boto3_client e;
  create_log_group := create_log_group e;
  create_log_stream := create_log_stream e;
  put_log_events := put_log_events e;
  epoch_ms := epoch_ms e;
  docker_from_env := docker_from_env e;
  containers_run := containers_run e;
  container_logs := container_logs e;
  container_stop := stop;
  container_remove := container_remove e
|}.

(** As [e], with another [create_log_group] and [create_log_stream]. *)
Definition with_create
    (group : history → CloudWatchLogsClient → string → outcome unit)
    (stream : history → CloudWatchLogsClient → string → string → outcome unit)
    (e : Env) : Env := {|
  parse_args := parse_args e;
  boto3_client := boto3_client e;
  create_log_group := group;
  create_log_stream := stream;
  put_log_events := put_log_events e;
  epoch_ms := epoch_ms e;
  docker_from_env := docker_from_env e;
  containers_run := containers_run e;
  container_logs := container_logs e;
  container_stop := container_stop e;
  container_remove := container_remove e
|}.

(** The number of [put_log_events] calls made so far. *)
Definition puts_so_far (h : history) : nat := length (put_calls h).

(** A sink that fails the [k]-th write (counting from 1) with [e]. *)
Definition failing_put (k : nat) (e : exn)
  : history → CloudWatchLogsClient → string → string → list log_event →
    outcome response :=
  λ h _ _ _ _, if decide (S (puts_so_far h) = k) then Raises e
               else Returns accepted_response.

(** A sink that keeps its groups and streams: creating one that an earlier
    call created answers [ResourceAlreadyExistsException]. *)
Definition group_known (g : string) (h : history) : bool :=
  existsb (λ ev, match ev with
                 | EvCreateLogGroup g' (Returns _) => bool_decide (g' = g)
                 | _ => false
                 end) h.

Definition stream_known (g s : string) (h : history) : bool :=
  existsb (λ ev, match ev with
                 | EvCreateLogStream g' s' (Returns _) =>
                     bool_decide (g' = g) && bool_decide (s' = s)
                 | _ => false
                 end) h.

Definition keeping_group
  : history → CloudWatchLogsClient → string → outcome unit :=
  λ h _ g, if group_known g h
           then Raises (ClientError "ResourceAlreadyExistsException")
           else Returns tt.

Definition keeping_stream
  : history → CloudWatchLogsClient → string → string → outcome unit :=
  λ h _ g s, if stream_known g s h
             then Raises (ClientError "ResourceAlreadyExistsException")
             else Returns tt.

(** The sink above behind the nominal collaborators. *)
Definition keeping : Env := with_create keeping_group keeping_stream (nominal []).

(** A Docker daemon whose [stop] fails. *)
Definition stop_fails : history → Container → outcome unit :=
  λ _ _, Raises (PyException "docker.errors.APIError").

(** A block that does nothing, and one that fails. *)
Definition quiet_scope : Container → M unit := λ _, mret tt.

Definition failing_scope : Container → M unit :=
  λ _, raise (PyException "RuntimeError").

(** A sink that refuses to create the log group. *)
Definition refusing : Env :=
  with_create (λ _ _ _, Raises (ClientError "AccessDeniedException"))
    keeping_stream (nominal [hello]).

(** Five lines of output, and a sink that throttles the third write. *)
Definition throttled : Env :=
  with_put (failing_put 3 (ClientError "ThrottlingException"))
    (nominal [hello; hello; hello; hello; hello]).

(** A sink that answers every write with the already-exists error. *)
Definition echoing : Env :=
  with_put (λ _ _ _ _ _, Raises (ClientError "ResourceAlreadyExistsException"))
    (nominal [hello; hello]).

(** ** Reading the log stream back

    [get_cloudwatch_logs] asks the sink for the events of a stream and logs
    their messages.  The program never calls it; [get_log_events] is
    therefore not one of the collaborators of [Env] and is passed in.  The
    request only reads: it is answered from the history and leaves no entry
    in the trace. *)

(** One element of [response["events"]]; each key may be missing. *)
Record output_log_event : Type := {
  out_timestamp : option Z;
  out_message : option string;
  out_ingestion_time : option Z
}.

(** The answer of [get_log_events]: the [events] list. *)
Record get_log_events_response : Type := {
  response_events : list output_log_event
}.

(** [for event in events: logger.info("Log event: %s", event["message"])];
    [event["message"]] raises [KeyError] when the key is missing. *)
Fixpoint log_events (events : list output_log_event) : M unit :=
  match events with
  | [] => mret tt
  | event :: events' =>
      match out_message event with
      | Some m => logger_info "Log event: %s" [ArgStr m];; log_events events'
      | None => raise (PyException "KeyError")
      end
  end.

Definition get_cloudwatch_logs
    (get_log_events :
       history → CloudWatchLogsClient → string → string →
       outcome get_log_events_response)
    (client : CloudWatchLogsClient) (log_group_name log_stream_name : string)
  : M unit :=
  try_except
    (response ← (λ h, (get_log_events h client log_group_name log_stream_name,
                       []));
     let events := response_events response in
     log_events events)
    (λ e, if is_Exception e
          then Some (logger_exception "Error getting log events" e)
          else None).

(** The messages of the events that come before the first one without a
    message. *)
Fixpoint leading_messages (events : list output_log_event) : list string :=
  match events with
  | [] => []
  | event :: events' =>
      match out_message event with
      | Some m => m :: leading_messages events'
      | None => []
      end
  end.

(** The exception a recorded call ended with, if it raised. *)
Definition raised_by (ev : event) : option exn :=
  let failure {A} (r : outcome A) :=
    match r with Returns _ => None | Raises e => Some e end in
  match ev with
  | EvParseArguments r => failure r
  | EvBotoClient _ r => failure r
  | EvCreateLogGroup _ r => failure r
  | EvCreateLogStream _ _ r => failure r
  | EvPutLogEvents _ _ _ r => failure r
  | EvFromEnv r => failure r
  | EvRun _ _ _ r => failure r
  | EvLogs _ s => stream_end s
  | EvStop _ r => failure r
  | EvRemove _ r => failure r
  | EvLog _ _ _ _ => None
  end.

(** A sink whose second stored event has lost its message. *)
Definition two_events_one_broken
  : history → CloudWatchLogsClient → string → string →
    outcome get_log_events_response :=
  λ _ _ _ _, Returns {|
    response_events :=
      [ {| out_timestamp := Some 1%Z; out_message := Some "hello";
           out_ingestion_time := Some 2%Z |};
        {| out_timestamp := Some 3%Z; out_message := None;
           out_ingestion_time := Some 4%Z |};
        {| out_timestamp := Some 5%Z; out_message := Some "world";
           out_ingestion_time := Some 6%Z |} ] |}.

(** [hello] followed by a line feed, as a container prints it. *)
Definition hello_line : bytes := hello ++ ["010"%byte].

(** A function that finds its resource already there. *)
Definition finds_existing : M unit :=
  raise (ClientError "ResourceAlreadyExistsException").

(** The throttling sink of [throttled] with a Docker daemon whose [stop]
    fails. *)
Definition throttled_stop_fails : Env := with_stop stop_fails throttled.

Definition is_create_group (ev : event) : bool :=
  match ev with EvCreateLogGroup _ _ => true | _ => false end.

Definition is_create_stream (ev : event) : bool :=
  match ev with EvCreateLogStream _ _ _ => true | _ => false end.

(** ** How computations run *)

Lemma run_bind {A B} (m : M A) (f : A → M B) (h : history) :
  run (m ≫= f) h =
  match run m h with
  | (Returns a, t1) => let '(o, t2) := run (f a) (h ++ t1) in (o, t1 ++ t2)
  | (Raises e, t1) => (Raises e, t1)
  end.
Proof. reflexivity. Qed.

Lemma run_ret {A} (a : A) h : run (mret a) h = (Returns a, []).
Proof. reflexivity. Qed.

Lemma run_call {A} (ask : history → outcome A) ev h :
  run (call ask ev) h = (ask h, [ev (ask h)]).
Proof. reflexivity. Qed.

Lemma run_try_except {A} (body : M A) handler h :
  run (try_except body handler) h =
  match run body h with
  | (Returns a, t1) => (Returns a, t1)
  | (Raises e, t1) =>
      match handler e with
      | Some k => let '(o, t2) := run k (h ++ t1) in (o, t1 ++ t2)
      | None => (Raises e, t1)
      end
  end.
Proof. reflexivity. Qed.

Lemma run_try_finally {A} (body : M A) cleanup h :
  run (try_finally body cleanup) h =
  let '(o, t1) := run body h in
  let '(c, t2) := run cleanup (h ++ t1) in
  (match c with Returns _ => o | Raises e => Raises e end, t1 ++ t2).
Proof. reflexivity. Qed.

Lemma trace_run {A} (m : M A) h : trace m h = (run m h).2.
Proof. reflexivity. Qed.

Lemma result_run {A} (m : M A) h : result m h = (run m h).1.
Proof. reflexivity. Qed.

Lemma put_calls_app t1 t2 : put_calls (t1 ++ t2) = put_calls t1 ++ put_calls t2.
Proof. apply omap_app. Qed.

Lemma put_calls_failure_record e : put_calls (failure_record e) = [].
Proof.
  destruct e as [code| | | |]; simpl; try done.
  by destruct (already_exists code).
Qed.

Lemma put_calls_sent_record resp t :
  put_calls (sent_record resp :: t) = put_calls t.
Proof. unfold sent_record. by destruct (has_Failed resp). Qed.

Lemma reraised_spec e :
  reraised e = if is_already_exists e then None else Some e.
Proof.
  destruct e as [code| | | |]; simpl; try done.
Qed.

Lemma result_trace {A} (m : M A) h : run m h = (result m h, trace m h).
Proof. unfold run, result, trace. by destruct (m h). Qed.

(** A list cut at an element that its front part cannot hold. *)
Lemma cut_after_prefix {A} (P : A → bool) (p q t1 t2 : list A) (x : A) :
  p ++ q = t1 ++ x :: t2 → Forall (λ y, P y = false) p → P x = true →
  ∃ m, t1 = p ++ m ∧ q = m ++ x :: t2.
Proof.
  revert t1. induction p as [|y p IH]; intros t1 Heq Hp Hx.
  - exists t1. by simpl in *.
  - inversion Hp as [|? ? Hy Hp']; subst.
    destruct t1 as [|z t1]; simpl in Heq; inversion Heq; subst.
    + congruence.
    + destruct (IH t1) as (m & -> & ->); [done..|]. by exists m.
Qed.

Lemma no_cut {A} (P : A → bool) (t t1 t2 : list A) (x : A) :
  t = t1 ++ x :: t2 → Forall (λ y, P y = false) t → P x = true → False.
Proof.
  intros -> Ht Hx. apply Forall_app in Ht as [_ Ht].
  inversion Ht; subst. congruence.
Qed.

Section Facts.

Context (env : Env).

(** *** The decorator around one sink call *)

Lemma handle_returns {A} (func : M A) kwargs h a t :
  run func h = (Returns a, t) →
  run (handle_cloudwatch_errors func kwargs) h = (Returns (Some a), t).
Proof.
  intros Hf. unfold handle_cloudwatch_errors.
  rewrite run_try_except, run_bind, Hf. simpl. by rewrite app_nil_r.
Qed.

Lemma handle_raises {A} (func : M A) h e t :
  run func h = (Raises e, t) →
  run (handle_cloudwatch_errors func ∅) h =
  (match reraised e with Some e' => Raises e' | None => Returns None end,
   t ++ failure_record e).
Proof.
  intros Hf. unfold handle_cloudwatch_errors.
  rewrite run_try_except, run_bind, Hf.
  destruct e as [code| | | |]; simpl; rewrite ?app_nil_r; try done.
  destruct (already_exists code); simpl; [|done].
  by rewrite lookup_empty.
Qed.

(** *** The provisioning operations *)

Lemma create_group_run cw g h :
  run (create_or_verify_cloudwatch_log_group env cw g) h =
  let r := create_log_group env h cw g in
  match r with
  | Returns v => (Returns (Some v), [EvCreateLogGroup g r])
  | Raises e =>
      (match reraised e with Some e' => Raises e' | None => Returns None end,
       EvCreateLogGroup g r :: failure_record e)
  end.
Proof.
  unfold create_or_verify_cloudwatch_log_group. simpl.
  destruct (create_log_group env h cw g) as [v|e] eqn:Hr.
  - apply handle_returns. by rewrite run_call, Hr.
  - rewrite (handle_raises _ h e [EvCreateLogGroup g (Raises e)]); [done|].
    by rewrite run_call, Hr.
Qed.

Lemma create_stream_run cw g s h :
  run (create_or_verify_cloudwatch_log_stream env cw g s) h =
  let r := create_log_stream env h cw g s in
  match r with
  | Returns v => (Returns (Some v), [EvCreateLogStream g s r])
  | Raises e =>
      (match reraised e with Some e' => Raises e' | None => Returns None end,
       EvCreateLogStream g s r :: failure_record e)
  end.
Proof.
  unfold create_or_verify_cloudwatch_log_stream. simpl.
  destruct (create_log_stream env h cw g s) as [v|e] eqn:Hr.
  - apply handle_returns. by rewrite run_call, Hr.
  - rewrite (handle_raises _ h e [EvCreateLogStream g s (Raises e)]); [done|].
    by rewrite run_call, Hr.
Qed.

(** *** Writing one line *)

Lemma write_logs_undecodable cw args line h :
  utf8_decode line = None →
  run (write_logs env cw args line) h = (Raises UnicodeDecodeError, []).
Proof.
  intros Hd. unfold write_logs. rewrite run_bind. simpl.
  rewrite run_bind. unfold decode. rewrite Hd. reflexivity.
Qed.

Lemma write_logs_decoded cw args line msg h :
  utf8_decode line = Some msg →
  let g := aws_cloudwatch_group args in
  let s := aws_cloudwatch_stream args in
  let evs := [LogEvent (epoch_ms env h) msg] in
  let r := put_log_events env h cw g s evs in
  run (write_logs env cw args line) h =
  match r with
  | Returns resp => (Returns tt, [EvPutLogEvents g s evs r; sent_record resp])
  | Raises e => (Raises e, [EvPutLogEvents g s evs r])
  end.
Proof.
  intros Hd. unfold write_logs. rewrite run_bind. simpl.
  rewrite run_bind. unfold decode. rewrite Hd. simpl.
  rewrite run_bind, run_call. rewrite !app_nil_r.
  destruct (put_log_events env h cw _ _ _) as [resp|e]; [|done].
  unfold sent_record. by destruct (has_Failed resp).
Qed.

(** The decorated function, case by case. *)
Lemma write_logs_to_cloudwatch_run cw args line h :
  run (write_logs_to_cloudwatch env cw args line) h =
  match utf8_decode line with
  | None =>
      (Raises UnicodeDecodeError, failure_record UnicodeDecodeError)
  | Some msg =>
      let g := aws_cloudwatch_group args in
      let s := aws_cloudwatch_stream args in
      let evs := [LogEvent (epoch_ms env h) msg] in
      let r := put_log_events env h cw g s evs in
      match r with
      | Returns resp =>
          (Returns (Some tt), [EvPutLogEvents g s evs r; sent_record resp])
      | Raises e =>
          (match reraised e with
           | Some e' => Raises e'
           | None => Returns None
           end,
           EvPutLogEvents g s evs r :: failure_record e)
      end
  end.
Proof.
  unfold write_logs_to_cloudwatch.
  destruct (utf8_decode line) as [msg|] eqn:Hd.
  - pose proof (write_logs_decoded cw args line msg h Hd) as Hw.
    simpl in *.
    destruct (put_log_events env h cw _ _ _) as [resp|e].
    + by apply handle_returns.
    + by rewrite (handle_raises _ h e _ Hw).
  - by rewrite (handle_raises _ h _ _ (write_logs_undecodable cw args line h Hd)).
Qed.

(** *** The forwarding loop *)

Lemma forward_lines_nil cw args fin h :
  run (forward_lines env cw args [] fin) h =
  (match fin with None => Returns tt | Some e => Raises e end, []).
Proof. by destruct fin. Qed.

Lemma forward_lines_cons cw args line rest fin h :
  run (forward_lines env cw args (line :: rest) fin) h =
  let step := run (write_logs_to_cloudwatch env cw args line)
                  (h ++ [log_line line]) in
  match step.1 with
  | Returns _ =>
      let '(o, t) := run (forward_lines env cw args rest fin)
                         (h ++ log_line line :: step.2) in
      (o, log_line line :: step.2 ++ t)
  | Raises e => (Raises e, log_line line :: step.2)
  end.
Proof.
  unfold forward_lines at 1, log_line. simpl for_each.
  rewrite run_bind. simpl.
  rewrite run_bind. simpl.
  rewrite run_bind.
  destruct (run (write_logs_to_cloudwatch env cw args line) _)
    as [[v|e] t1] eqn:Hw; simpl; [|done].
  rewrite ?app_nil_r, <- ?app_assoc. simpl.
  fold (forward_lines env cw args rest fin).
  by destruct (run (forward_lines env cw args rest fin) _).
Qed.

Lemma forward_lines_shape cw args lines fin h :
  forwarding (aws_cloudwatch_group args) (aws_cloudwatch_stream args)
    lines fin
    (result (forward_lines env cw args lines fin) h)
    (trace (forward_lines env cw args lines fin) h).
Proof.
  revert h. induction lines as [|line rest IH]; intros h.
  - unfold result, trace.
    change (forward_lines env cw args [] fin h)
      with (run (forward_lines env cw args [] fin) h).
    rewrite forward_lines_nil. destruct fin; constructor.
  - unfold result, trace.
    change (forward_lines env cw args (line :: rest) fin h)
      with (run (forward_lines env cw args (line :: rest) fin) h).
    rewrite forward_lines_cons, write_logs_to_cloudwatch_run.
    destruct (utf8_decode line) as [msg|] eqn:Hd; simpl.
    + destruct (put_log_events env _ cw _ _ _) as [resp|e] eqn:Hp; simpl.
      * rewrite result_trace. simpl. by apply fw_sent.
      * destruct (reraised e) as [e'|] eqn:He; simpl.
        -- assert (e' = e) as ->.
           { destruct e as [code| | | |]; simpl in He; try congruence.
             destruct (already_exists code); congruence. }
           by apply fw_failed.
        -- rewrite result_trace. simpl. by apply fw_suppressed.
    + by apply fw_undecodable.
Qed.

(** *** The container scope *)

Lemma stop_and_remove_run c auto_remove h :
  run (stop_and_remove env c auto_remove) h =
  let rs := container_stop env h c in
  match rs with
  | Raises e => (Raises e, [EvStop c rs])
  | Returns _ =>
      if auto_remove then
        let rr := container_remove env (h ++ [EvStop c rs]) c in
        match rr with
        | Raises e => (Raises e, [EvStop c rs; EvRemove c rr])
        | Returns _ =>
            (Returns tt, [EvStop c rs; EvRemove c rr; stopped_record c])
        end
      else (Returns tt, [EvStop c rs; stopped_record c])
  end.
Proof.
  unfold stop_and_remove. rewrite run_bind, run_call. simpl.
  destruct (container_stop env h c) as [[]|e]; [|done].
  rewrite run_bind. destruct auto_remove; simpl.
  - by destruct (container_remove env _ c) as [[]|e].
  - done.
Qed.

Lemma managed_container_run {A} image command detach auto_remove
    (scope : Container → M A) h :
  run (managed_container env image command detach auto_remove scope) h =
  let r0 := docker_from_env env h in
  match r0 with
  | Raises e => (Raises e, [EvFromEnv r0])
  | Returns _ =>
      let cmd := shell_wrapped command in
      let r1 := containers_run env (h ++ [EvFromEnv r0]) image cmd detach in
      match r1 with
      | Raises e => (Raises e, [EvFromEnv r0; EvRun image cmd detach r1])
      | Returns c =>
          let entered :=
            [EvFromEnv r0; EvRun image cmd detach r1; started_record c] in
          let body := run (scope c) (h ++ entered) in
          let fin :=
            run (stop_and_remove env c auto_remove) (h ++ entered ++ body.2) in
          (match fin.1 with Returns _ => body.1 | Raises e => Raises e end,
           entered ++ body.2 ++ fin.2)
      end
  end.
Proof.
  unfold managed_container, shell_wrapped, started_record.
  rewrite run_bind, run_call. simpl.
  destruct (docker_from_env env h) as [[]|e]; [|done].
  rewrite run_bind, run_call. simpl.
  destruct (containers_run env _ image _ detach) as [c|e]; [|done].
  rewrite run_try_finally, run_bind. simpl.
  rewrite <- !app_assoc. simpl.
  destruct (run (scope c) _) as [o t1]. simpl.
  rewrite <- ?app_assoc. simpl.
  by destruct (run (stop_and_remove env c auto_remove) _) as [oc t2].
Qed.

End Facts.

Section Shape.

Context (env : Env).

Lemma forward_logs_run cw args c h :
  run (forward_logs env cw args c) h =
  let strm := container_logs env h c in
  let loop := run (forward_lines env cw args (stream_lines strm)
                     (stream_end strm)) (h ++ [EvLogs c strm]) in
  (loop.1, EvLogs c strm :: loop.2).
Proof.
  unfold forward_logs. rewrite run_bind. simpl.
  by destruct (run (forward_lines env cw args _ _) _).
Qed.

Lemma stop_and_remove_cleaned c h :
  cleaned c (result (stop_and_remove env c true) h)
    (trace (stop_and_remove env c true) h).
Proof.
  rewrite result_run, trace_run, stop_and_remove_run. cbv zeta.
  destruct (container_stop env h c) as [[]|e]; [|constructor].
  destruct (container_remove env _ c) as [[]|e]; constructor.
Qed.

Lemma create_group_accepted cw g h :
  let r := create_log_group env h cw g in
  accepted r = true →
  ∃ v, run (create_or_verify_cloudwatch_log_group env cw g) h =
       (Returns v, EvCreateLogGroup g r :: answer_record r).
Proof.
  intros r Hacc. subst r. rewrite create_group_run. cbv zeta.
  destruct (create_log_group env h cw g) as [v|e]; [by eexists|].
  simpl in Hacc. rewrite reraised_spec, Hacc. by eexists.
Qed.

Lemma create_group_refused cw g h :
  let r := create_log_group env h cw g in
  accepted r = false →
  ∃ e, r = Raises e ∧ is_already_exists e = false ∧
       run (create_or_verify_cloudwatch_log_group env cw g) h =
       (Raises e, EvCreateLogGroup g r :: failure_record e).
Proof.
  intros r Hacc. subst r. rewrite create_group_run. cbv zeta.
  destruct (create_log_group env h cw g) as [v|e]; [done|].
  simpl in Hacc. rewrite reraised_spec, Hacc. by exists e.
Qed.

Lemma create_stream_accepted cw g s h :
  let r := create_log_stream env h cw g s in
  accepted r = true →
  ∃ v, run (create_or_verify_cloudwatch_log_stream env cw g s) h =
       (Returns v, EvCreateLogStream g s r :: answer_record r).
Proof.
  intros r Hacc. subst r. rewrite create_stream_run. cbv zeta.
  destruct (create_log_stream env h cw g s) as [v|e]; [by eexists|].
  simpl in Hacc. rewrite reraised_spec, Hacc. by eexists.
Qed.

Lemma create_stream_refused cw g s h :
  let r := create_log_stream env h cw g s in
  accepted r = false →
  ∃ e, r = Raises e ∧ is_already_exists e = false ∧
       run (create_or_verify_cloudwatch_log_stream env cw g s) h =
       (Raises e, EvCreateLogStream g s r :: failure_record e).
Proof.
  intros r Hacc. subst r. rewrite create_stream_run. cbv zeta.
  destruct (create_log_stream env h cw g s) as [v|e]; [done|].
  simpl in Hacc. rewrite reraised_spec, Hacc. by exists e.
Qed.

(** Closes a goal [main_shape o t] with a proof of [main_shape o t'], the
    two traces differing by how their appends are nested. *)
Ltac shape_by H :=
  refine (eq_ind _ (main_shape _) H _ _);
  unfold provisioned, connected, streaming;
  repeat first [progress simpl | rewrite <- app_assoc];
  reflexivity.

Lemma main_run_shape h :
  main_shape (result (main env) h) (trace (main env) h).
Proof.
  rewrite result_run, trace_run. unfold main, setup_logging, parse_arguments.
  rewrite run_bind, run_ret, app_nil_r.
  rewrite run_bind, run_call.
  destruct (parse_args env h) as [args|e]; [|constructor].
  rewrite run_bind, run_call.
  destruct (boto3_client env _ (client_of args)) as [[]|e]; [|constructor].
  rewrite run_bind.
  set (h1 := (h ++ _) ++ _).
  set (g := aws_cloudwatch_group args). set (s := aws_cloudwatch_stream args).
  destruct (accepted (create_log_group env h1 (client_of args) g)) eqn:Hg.
  2:{ destruct (create_group_refused (client_of args) g h1 Hg)
        as (e & Hr & He & ->).
      rewrite Hr. cbn [fst snd]. shape_by (ms_no_group args e He). }
  destruct (create_group_accepted (client_of args) g h1 Hg) as [vg ->].
  set (rg := create_log_group env h1 (client_of args) g) in *.
  rewrite run_bind.
  set (h2 := h1 ++ _).
  destruct (accepted (create_log_stream env h2 (client_of args) g s)) eqn:Hs.
  2:{ destruct (create_stream_refused (client_of args) g s h2 Hs)
        as (e & Hr & He & ->).
      rewrite Hr. cbn [fst snd]. shape_by (ms_no_stream args rg e Hg He). }
  destruct (create_stream_accepted (client_of args) g s h2 Hs) as [vs ->].
  set (rs := create_log_stream env h2 (client_of args) g s) in *.
  rewrite managed_container_run. cbv zeta.
  set (h3 := h2 ++ _).
  destruct (docker_from_env env h3) as [[]|e].
  2:{ cbn [fst snd]. shape_by (ms_no_docker args rg rs e Hg Hs). }
  destruct (containers_run env _ _ _ true) as [c|e].
  2:{ cbn [fst snd]. shape_by (ms_no_container args rg rs e Hg Hs). }
  rewrite forward_logs_run. cbv zeta. cbn [fst snd].
  set (strm := container_logs env _ c).
  set (h4 := (_ ++ _) ++ [EvLogs c strm]).
  set (h5 := h3 ++ _).
  pose proof (forward_lines_shape env (client_of args) args
                (stream_lines strm) (stream_end strm) h4) as Hloop.
  pose proof (stop_and_remove_cleaned c h5) as Hfin.
  rewrite result_run, trace_run in Hloop, Hfin.
  set (loop := run (forward_lines env (client_of args) args _ _) h4) in *.
  set (fin := run (stop_and_remove env c true) h5) in *.
  clearbody fin loop.
  shape_by (ms_forwarded args rg rs c strm _ _ _ _ Hg Hs Hloop Hfin).
Qed.

End Shape.

(** ** What the shapes hold *)

Lemma apart_run : apart is_run.
Proof. by intros []. Qed.

Lemma failure_record_logs e : Forall (λ ev, is_log ev = true) (failure_record e).
Proof.
  destruct e as [code| | | |]; simpl; repeat constructor.
  destruct (already_exists code); repeat constructor.
Qed.

Lemma answer_record_logs {A} (r : outcome A) :
  Forall (λ ev, is_log ev = true) (answer_record r).
Proof. destruct r; [constructor|apply failure_record_logs]. Qed.

Lemma filter_none (P : event → bool) t :
  Forall (λ ev, P ev = false) t → filter (λ ev, P ev) t = [].
Proof.
  induction 1 as [|ev t Hev _ IH]; [done|].
  rewrite filter_cons, IH. destruct (decide (P ev)) as [HP|]; [|done].
  rewrite Hev in HP. done.
Qed.

Lemma forwarding_events g s lines fin o t :
  forwarding g s lines fin o t →
  Forall (λ ev, is_log ev || is_put ev = true) t.
Proof.
  assert (∀ e, Forall (λ ev, is_log ev || is_put ev = true)
                 (failure_record e)) as Hrec.
  { intros e. eapply Forall_impl; [apply failure_record_logs|].
    by intros ev ->. }
  induction 1;
    repeat first [done | apply Hrec | apply Forall_app_2 | constructor].
  unfold sent_record. by destruct (has_Failed resp).
Qed.

Lemma put_calls_cleaned c oc tc : cleaned c oc tc → put_calls tc = [].
Proof. by destruct 1. Qed.

Lemma put_calls_nil_not_elem t g s evs r :
  put_calls t = [] → EvPutLogEvents g s evs r ∉ t.
Proof.
  intros Hnil Hin. apply list_elem_of_split in Hin as (t1 & t2 & ->).
  rewrite put_calls_app in Hnil. simpl in Hnil.
  by destruct (put_calls t1).
Qed.

Lemma logs_apart (P : event → bool) t :
  apart P → Forall (λ ev, is_log ev = true) t → Forall (λ ev, P ev = false) t.
Proof.
  intros HP Ht. eapply Forall_impl; [exact Ht|].
  intros ev Hev. apply HP. by rewrite Hev.
Qed.

Lemma forwarding_apart (P : event → bool) g s lines fin o t :
  apart P → forwarding g s lines fin o t → Forall (λ ev, P ev = false) t.
Proof.
  intros HP Hf.
  eapply Forall_impl; [exact (forwarding_events _ _ _ _ _ _ Hf)|]. exact HP.
Qed.

(** Proves that no event of a trace built from the shapes is of kind [P],
    for [HP : apart P]. *)
Ltac none_of HP :=
  unfold provisioned, connected, streaming;
  repeat first
    [ apply Forall_nil_2
    | apply Forall_app_2
    | apply Forall_cons_2; [reflexivity|]
    | apply (logs_apart _ _ HP (failure_record_logs _))
    | apply (logs_apart _ _ HP (answer_record_logs _))
    | eapply (forwarding_apart _ _ _ _ _ _ _ HP); eassumption ].

Lemma shape_run_needs_provisioning o t :
  main_shape o t →
  ∀ t1 image cmd d r t2,
    t = t1 ++ EvRun image cmd d r :: t2 →
    ∃ args rg rs ta tb tc,
      t1 = ta
           ++ EvCreateLogGroup (aws_cloudwatch_group args) rg :: tb
           ++ EvCreateLogStream (aws_cloudwatch_group args)
                (aws_cloudwatch_stream args) rs :: tc ∧
      EvParseArguments (Returns args) ∈ ta ∧
      accepted rg = true ∧ accepted rs = true.
Proof.
  assert (∀ args rg rs q t1 image cmd d r t2,
            accepted rg = true → accepted rs = true →
            provisioned args rg rs ++ EvFromEnv (Returns tt) :: q
            = t1 ++ EvRun image cmd d r :: t2 →
            ∃ args rg rs ta tb tc,
              t1 = ta
                   ++ EvCreateLogGroup (aws_cloudwatch_group args) rg :: tb
                   ++ EvCreateLogStream (aws_cloudwatch_group args)
                        (aws_cloudwatch_stream args) rs :: tc ∧
              EvParseArguments (Returns args) ∈ ta ∧
              accepted rg = true ∧ accepted rs = true) as Hcut.
  { intros args rg rs q t1 image cmd d r t2 Hg Hs Heq.
    change (provisioned args rg rs ++ EvFromEnv (Returns tt) :: q)
      with (provisioned args rg rs ++ [EvFromEnv (Returns tt)] ++ q) in Heq.
    rewrite app_assoc in Heq.
    apply (cut_after_prefix is_run) in Heq as (m & -> & _);
      [|none_of apart_run|done].
    exists args, rg, rs, (connected args), (answer_record rg),
      (answer_record rs ++ [EvFromEnv (Returns tt)] ++ m).
    split; [|split; [|done]].
    - unfold provisioned. by repeat first [progress simpl | rewrite <- app_assoc].
    - unfold connected. set_solver. }
  destruct 1; intros t1 image cmd d r t2 Heq.
  - exfalso. eapply (no_cut is_run); [exact Heq|none_of apart_run|done].
  - exfalso. eapply (no_cut is_run); [exact Heq|none_of apart_run|done].
  - exfalso. eapply (no_cut is_run); [exact Heq|none_of apart_run|done].
  - exfalso. eapply (no_cut is_run); [exact Heq|none_of apart_run|done].
  - exfalso. eapply (no_cut is_run); [exact Heq|none_of apart_run|done].
  - eapply Hcut; [..|exact Heq]; assumption.
  - eapply Hcut; [..|exact Heq]; assumption.
Qed.

Lemma logs_not_put t :
  Forall (λ ev, is_log ev = true) t → Forall (λ ev, is_put ev = false) t.
Proof. intros Ht. eapply Forall_impl; [exact Ht|]. by intros []. Qed.

Lemma put_calls_none t : Forall (λ ev, is_put ev = false) t → put_calls t = [].
Proof. induction 1 as [|[] t Hev _ IH]; try done. Qed.

Lemma not_elem_logs ev t :
  Forall (λ ev, is_log ev = true) t → is_log ev = false → ev ∉ t.
Proof.
  intros Ht Hev Hin. rewrite Forall_forall in Ht.
  apply Ht in Hin. congruence.
Qed.

Lemma not_elem_forwarding ev g s lines fin o t :
  forwarding g s lines fin o t → is_log ev || is_put ev = false → ev ∉ t.
Proof.
  intros Hf Hev Hin.
  pose proof (forwarding_events _ _ _ _ _ _ Hf) as Ht.
  rewrite Forall_forall in Ht. apply Ht in Hin. congruence.
Qed.

Lemma shape_failed_provisioning o t :
  main_shape o t →
  ∀ e,
    (∃ g, EvCreateLogGroup g (Raises e) ∈ t) ∨
    (∃ g s, EvCreateLogStream g s (Raises e) ∈ t) →
    is_already_exists e = false →
    o = Raises e ∧ run_calls t = [] ∧ put_calls t = [].
Proof.
  destruct 1 as [e|args e|args e He|args rg e Hg He|args rg rs e Hg Hs
                |args rg rs e Hg Hs|args rg rs c strm o tl oc tc Hg Hs Hf Hc];
    intros e0 Hin Hne.
  7: destruct Hc.
  all: unfold provisioned, connected, streaming in Hin.
  all: destruct Hin as [[g0 Hin]|[g0 [s0 Hin]]].
  all: set_unfold in Hin.
  all: repeat match goal with
       | H : _ ∨ _ |- _ => destruct H as [H|H]
       | H : False |- _ => destruct H
       | H : _ ∈ failure_record _ |- _ =>
           exfalso; revert H;
           apply not_elem_logs; [apply failure_record_logs|reflexivity]
       | H : _ ∈ answer_record _ |- _ =>
           exfalso; revert H;
           apply not_elem_logs; [apply answer_record_logs|reflexivity]
       | H : _ ∈ ?tl, Hf : forwarding _ _ _ _ _ ?tl |- _ =>
           exfalso; revert H;
           apply (not_elem_forwarding _ _ _ _ _ _ _ Hf); reflexivity
       | H : @eq event _ _ |- _ => discriminate H || (injection H as ?; subst)
       end.
  all: try (simpl in Hg; congruence).
  all: try (simpl in Hs; congruence).
  all: split; [done|split].
  all: first [ apply filter_none; none_of apart_run
             | apply put_calls_none; unfold connected;
               repeat first
                 [ apply Forall_nil_2
                 | apply Forall_app_2
                 | apply Forall_cons_2; [reflexivity|]
                 | apply logs_not_put, failure_record_logs
                 | apply logs_not_put, answer_record_logs ] ].
Qed.

Lemma not_elem_sent_record g s evs r resp :
  EvPutLogEvents g s evs r ≠ sent_record resp.
Proof. unfold sent_record. by destruct (has_Failed resp). Qed.

Lemma forwarding_failed_put g s lines fin o tl g' s' evs e :
  forwarding g s lines fin o tl →
  EvPutLogEvents g' s' evs (Raises e) ∈ tl →
  is_already_exists e = false →
  ∃ pre line post sent,
    lines = pre ++ line :: post ∧
    tl = sent ++ log_line line
              :: EvPutLogEvents g' s' evs (Raises e) :: failure_record e ∧
    Forall2 (submits g s) (put_calls sent) pre ∧
    submits g s (g', s', evs) line ∧
    o = Raises e.
Proof.
  intros Hf Hin Hne.
  induction Hf as [|e0|line rest fin Hd|line rest fin ts msg resp o t Hd Hf IH
                  |line rest fin ts msg e0 o t Hd He0 Hf IH
                  |line rest fin ts msg e0 Hd He0].
  - set_solver.
  - set_solver.
  - exfalso. apply elem_of_cons in Hin as [Hin|Hin]; [done|].
    revert Hin. apply not_elem_logs; [apply failure_record_logs|done].
  - apply elem_of_cons in Hin as [Hin|Hin]; [done|].
    apply elem_of_cons in Hin as [Hin|Hin]; [done|].
    apply elem_of_cons in Hin as [Hin|Hin];
      [by apply not_elem_sent_record in Hin|].
    destruct (IH Hin) as (pre & line' & post & sent & -> & -> & Hsent & Hl & ->).
    exists (line :: pre), line', post,
      (log_line line
       :: EvPutLogEvents g s [LogEvent ts msg] (Returns resp)
       :: sent_record resp :: sent).
    repeat split; try done.
    change (put_calls (log_line line :: ?a :: ?b :: ?t))
      with (put_calls [log_line line; a] ++ put_calls (b :: t)).
    rewrite put_calls_sent_record. simpl.
    constructor; [by exists ts, msg|done].
  - apply elem_of_cons in Hin as [Hin|Hin]; [done|].
    apply elem_of_cons in Hin as [Hin|Hin].
    { injection Hin as -> -> -> ->.
      rewrite reraised_spec, Hne in He0. done. }
    apply elem_of_app in Hin as [Hin|Hin].
    { exfalso. revert Hin.
      apply not_elem_logs; [apply failure_record_logs|done]. }
    destruct (IH Hin) as (pre & line' & post & sent & -> & -> & Hsent & Hl & ->).
    exists (line :: pre), line', post,
      (log_line line
       :: EvPutLogEvents g s [LogEvent ts msg] (Raises e0)
       :: failure_record e0 ++ sent).
    repeat split; try done.
    + simpl. by rewrite <- app_assoc.
    + change (put_calls (log_line line :: ?a :: ?t))
        with (put_calls [log_line line; a] ++ put_calls t).
      rewrite put_calls_app, put_calls_failure_record. simpl.
      constructor; [by exists ts, msg|done].
  - apply elem_of_cons in Hin as [Hin|Hin]; [done|].
    apply elem_of_cons in Hin as [Hin|Hin].
    { injection Hin as -> -> -> ->.
      exists [], line, rest, [].
      split; [done|]. split; [done|]. split; [constructor|].
      split; [by exists ts, msg|done]. }
    exfalso. revert Hin.
    apply not_elem_logs; [apply failure_record_logs|done].
Qed.

(** Proves that a trace built from the shapes, without a loop part, holds
    no sink write. *)
Ltac none_put :=
  apply put_calls_none; unfold provisioned, connected, streaming;
  repeat first
    [ apply Forall_nil_2
    | apply Forall_app_2
    | apply Forall_cons_2; [reflexivity|]
    | apply logs_not_put, failure_record_logs
    | apply logs_not_put, answer_record_logs ].

Lemma shape_failed_put o t g s evs e :
  main_shape o t →
  EvPutLogEvents g s evs (Raises e) ∈ t →
  is_already_exists e = false →
  ∃ before c strm pre line post sent cleanup oc,
    t = before ++ EvLogs c strm :: sent
        ++ log_line line :: EvPutLogEvents g s evs (Raises e)
        :: failure_record e ++ cleanup ∧
    put_calls before = [] ∧
    stream_lines strm = pre ++ line :: post ∧
    Forall2 (submits g s) (put_calls sent) pre ∧
    submits g s (g, s, evs) line ∧
    cleaned c oc cleanup ∧
    o = match oc with Returns _ => Raises e | Raises e' => Raises e' end.
Proof.
  destruct 1 as [e0|args e0|args e0 He|args rg e0 Hg He|args rg rs e0 Hg Hs
                |args rg rs e0 Hg Hs|args rg rs c strm o tl oc tc Hg Hs Hf Hc];
    intros Hin Hne.
  1-6: exfalso; revert Hin; apply put_calls_nil_not_elem; none_put.
  apply elem_of_app in Hin as [Hin|Hin].
  { exfalso. revert Hin. apply put_calls_nil_not_elem; none_put. }
  apply elem_of_app in Hin as [Hin|Hin].
  { exfalso. revert Hin. apply put_calls_nil_not_elem; none_put. }
  apply elem_of_app in Hin as [Hin|Hin].
  2:{ exfalso. revert Hin. apply put_calls_nil_not_elem.
      by apply (put_calls_cleaned c oc). }
  destruct (forwarding_failed_put _ _ _ _ _ _ _ _ _ _ Hf Hin Hne)
    as (pre & line & post & sent & Hlines & -> & Hsent & Hl & ->).
  assert (g = aws_cloudwatch_group args ∧ s = aws_cloudwatch_stream args)
    as [-> ->].
  { destruct Hl as (ts & msg & Heq & _). by injection Heq as -> -> _. }
  exists (provisioned args rg rs
          ++ [EvFromEnv (Returns tt);
              EvRun (docker_image args) (shell_wrapped (bash_command args))
                true (Returns c);
              started_record c]),
    c, strm, pre, line, post, sent, tc, oc.
  repeat split; try done.
  - unfold streaming. by repeat first [progress simpl | rewrite <- app_assoc].
  - none_put.
Qed.

(** * Properties of the program *)

(** ** One line, one event *)

(** C9: a call of [write_logs_to_cloudwatch] on a line that decodes makes
    exactly one [put_log_events] call, against the configured group and
    stream, with a single event whose timestamp is the clock reading taken
    during the call and whose message is the line decoded as UTF-8. *)
Theorem write_logs_submits_one_event env cw args line msg h :
  utf8_decode line = Some msg →
  put_calls (trace (write_logs_to_cloudwatch env cw args line) h) =
  [(aws_cloudwatch_group args, aws_cloudwatch_stream args,
    [LogEvent (epoch_ms env h) msg])].
Proof.
  intros Hd. rewrite trace_run, write_logs_to_cloudwatch_run, Hd. simpl.
  destruct (put_log_events env h cw _ _ _) as [resp|e]; cbn [snd].
  - change (put_calls (?ev :: ?t)) with (put_calls [ev] ++ put_calls t).
    by rewrite put_calls_sent_record.
  - change (put_calls (?ev :: ?t)) with (put_calls [ev] ++ put_calls t).
    by rewrite put_calls_failure_record.
Qed.

Lemma write_logs_submits_one_event_witness :
  utf8_decode hello = Some [104; 101; 108; 108; 111]%N ∧
  put_calls
    (trace (write_logs_to_cloudwatch (nominal [hello]) demo_client demo_args
              hello) []) =
  [("g1", "s1", [LogEvent 1700000000000 [104; 101; 108; 108; 111]%N])].
Proof.
  split; [reflexivity|].
  exact (write_logs_submits_one_event (nominal [hello]) demo_client demo_args
           hello _ [] eq_refl).
Defined.

(** C10: on a line that is not valid UTF-8, [write_logs_to_cloudwatch]
    raises [UnicodeDecodeError], after logging it, without any
    [put_log_events] call; the loop stops there and the lines after it are
    never submitted, although the sink reported nothing. *)
Theorem undecodable_line_stops_forwarding env cw args line rest fin h :
  utf8_decode line = None →
  run (write_logs_to_cloudwatch env cw args line) h =
    (Raises UnicodeDecodeError,
     [EvLog ERROR "Unexpected error occurred" [] (Some UnicodeDecodeError)]) ∧
  run (forward_lines env cw args (line :: rest) fin) h =
    (Raises UnicodeDecodeError,
     [log_line line;
      EvLog ERROR "Unexpected error occurred" [] (Some UnicodeDecodeError)]).
Proof.
  intros Hd. split.
  - by rewrite write_logs_to_cloudwatch_run, Hd.
  - by rewrite forward_lines_cons, write_logs_to_cloudwatch_run, Hd.
Qed.

Lemma undecodable_line_stops_forwarding_witness :
  utf8_decode garbage = None ∧
  run (write_logs_to_cloudwatch (nominal [garbage; hello]) demo_client
         demo_args garbage) [] =
    (Raises UnicodeDecodeError,
     [EvLog ERROR "Unexpected error occurred" [] (Some UnicodeDecodeError)]) ∧
  run (forward_lines (nominal [garbage; hello]) demo_client demo_args
         [garbage; hello] None) [] =
    (Raises UnicodeDecodeError,
     [log_line garbage;
      EvLog ERROR "Unexpected error occurred" [] (Some UnicodeDecodeError)]).
Proof.
  split; [reflexivity|].
  exact (undecodable_line_stops_forwarding (nominal [garbage; hello])
           demo_client demo_args garbage [hello] None [] eq_refl).
Defined.

(** C5: when [put_log_events] returns a response holding a ["Failed"] key,
    [write_logs_to_cloudwatch] logs an error and returns normally, and the
    loop goes on with the remaining lines exactly as it would have after a
    clean write. *)
Theorem partial_failure_is_logged_and_skipped
    env cw args line msg resp rest fin h :
  let g := aws_cloudwatch_group args in
  let s := aws_cloudwatch_stream args in
  let h1 := h ++ [log_line line] in
  let evs := [LogEvent (epoch_ms env h1) msg] in
  let step :=
    [EvPutLogEvents g s evs (Returns resp);
     EvLog ERROR "Failed to send log to CloudWatch: %s" [ArgResponse resp]
       None] in
  utf8_decode line = Some msg →
  put_log_events env h1 cw g s evs = Returns resp →
  has_Failed resp = true →
  run (write_logs_to_cloudwatch env cw args line) h1 =
    (Returns (Some tt), step) ∧
  run (forward_lines env cw args (line :: rest) fin) h =
    (result (forward_lines env cw args rest fin) (h ++ log_line line :: step),
     log_line line :: step
     ++ trace (forward_lines env cw args rest fin)
          (h ++ log_line line :: step)).
Proof.
  intros g s h1 evs step Hd Hp Hf.
  assert (run (write_logs_to_cloudwatch env cw args line) h1 =
          (Returns (Some tt), step)) as Hw.
  { rewrite write_logs_to_cloudwatch_run, Hd. simpl.
    fold g s h1 evs. rewrite Hp. unfold sent_record. by rewrite Hf. }
  split; [done|].
  rewrite forward_lines_cons. fold h1. rewrite Hw. simpl.
  by rewrite (result_trace (forward_lines env cw args rest fin)).
Qed.

Lemma partial_failure_is_logged_and_skipped_witness :
  let env := with_put (λ _ _ _ _ _, Returns failed_response)
               (nominal [hello; hello]) in
  let step :=
    [EvPutLogEvents "g1" "s1"
       [LogEvent 1700000000001 [104; 101; 108; 108; 111]%N]
       (Returns failed_response);
     EvLog ERROR "Failed to send log to CloudWatch: %s"
       [ArgResponse failed_response] None] in
  has_Failed failed_response = true ∧
  run (write_logs_to_cloudwatch env demo_client demo_args hello)
      [log_line hello] = (Returns (Some tt), step) ∧
  put_calls (trace (forward_lines env demo_client demo_args [hello; hello]
                      None) []) =
  [("g1", "s1", [LogEvent 1700000000001 [104; 101; 108; 108; 111]%N]);
   ("g1", "s1", [LogEvent 1700000000004 [104; 101; 108; 108; 111]%N])].
Proof.
  intros env step.
  pose proof (partial_failure_is_logged_and_skipped env demo_client demo_args
                hello _ failed_response [hello] None []
                eq_refl eq_refl eq_refl) as [Hw Hl].
  split; [reflexivity|]. split; [exact Hw|].
  rewrite trace_run, Hl. reflexivity.
Defined.

(** ** The container scope *)

Lemma cleanup_calls_app t1 t2 :
  cleanup_calls (t1 ++ t2) = cleanup_calls t1 ++ cleanup_calls t2.
Proof. apply filter_app. Qed.

(** C8: once the Docker client is there, [managed_container] makes exactly
    one [containers.run] call, for the given image, with the command wrapped
    as [/bin/sh -c command], detached.  When that call raises, the exception
    leaves [managed_container] at once: no second attempt, no block, no
    cleanup.  When it returns, nothing [managed_container] does afterwards
    starts a container. *)
Theorem managed_container_starts_one_container {A}
    env image command auto_remove (scope : Container → M A) h :
  docker_from_env env h = Returns tt →
  let cmd := ["/bin/sh"; "-c"; command] in
  let h0 := h ++ [EvFromEnv (Returns tt)] in
  let started := run (managed_container env image command true auto_remove
                        scope) h in
  match containers_run env h0 image cmd true with
  | Raises e =>
      started =
      (Raises e, [EvFromEnv (Returns tt); EvRun image cmd true (Raises e)])
  | Returns c =>
      let entered :=
        [EvFromEnv (Returns tt); EvRun image cmd true (Returns c);
         started_record c] in
      ∃ cleanup,
        started.2 = entered ++ trace (scope c) (h ++ entered) ++ cleanup ∧
        run_calls cleanup = []
  end.
Proof.
  intros H0 cmd h0 started. subst started.
  rewrite managed_container_run, H0. cbv zeta.
  fold cmd. unfold shell_wrapped. fold cmd. fold h0.
  destruct (containers_run env h0 image cmd true) as [c|e]; [|done].
  cbn [snd]. eexists. split; [reflexivity|].
  rewrite stop_and_remove_run. cbv zeta.
  destruct (container_stop env _ c) as [[]|e1]; [|done].
  destruct auto_remove; [|done].
  by destruct (container_remove env _ c) as [[]|e2].
Qed.

Lemma managed_container_starts_one_container_witness :
  run_calls
    (trace (managed_container (nominal []) "busybox" "echo hello" true true
              quiet_scope) []) =
  [EvRun "busybox" ["/bin/sh"; "-c"; "echo hello"] true
     (Returns demo_container)].
Proof.
  pose proof (managed_container_starts_one_container (nominal []) "busybox"
                "echo hello" true quiet_scope [] eq_refl) as H.
  hnf in H. destruct H as (cleanup & Ht & Hc).
  rewrite trace_run, Ht. unfold run_calls in *.
  rewrite !filter_app, Hc. reflexivity.
Defined.

(** C1, as the code has it: on every way out of the block (whatever the
    block returns or raises, an interrupt included) the cleanup calls [stop]
    exactly once; it calls [remove] exactly once, after [stop] has returned,
    when [auto_remove] is set and [stop] returned normally, and not at all
    otherwise. *)
Theorem managed_container_cleans_up {A}
    env image command detach auto_remove (scope : Container → M A) h c :
  let cmd := ["/bin/sh"; "-c"; command] in
  let entered :=
    [EvFromEnv (Returns tt); EvRun image cmd detach (Returns c);
     started_record c] in
  let body := trace (scope c) (h ++ entered) in
  let rs := container_stop env (h ++ entered ++ body) c in
  let rr := container_remove env (h ++ entered ++ body ++ [EvStop c rs]) c in
  docker_from_env env h = Returns tt →
  containers_run env (h ++ [EvFromEnv (Returns tt)]) image cmd detach
    = Returns c →
  ∃ cleanup,
    trace (managed_container env image command detach auto_remove scope) h =
      entered ++ body ++ cleanup ∧
    cleanup_calls cleanup =
      if auto_remove && returned rs
      then [EvStop c rs; EvRemove c rr]
      else [EvStop c rs].
Proof.
  intros cmd entered body rs rr H0 H1.
  rewrite trace_run, managed_container_run, H0. cbv zeta.
  unfold shell_wrapped. fold cmd. rewrite H1. cbn [snd].
  fold entered. rewrite <- (trace_run (scope c)). fold body.
  eexists. split; [reflexivity|].
  rewrite stop_and_remove_run. cbv zeta. fold rs.
  destruct rs as [[]|e1] eqn:Hrs.
  - destruct auto_remove; [|done].
    replace (container_remove env _ c) with rr
      by (subst rr; by rewrite <- !app_assoc).
    by destruct rr as [[]|e2].
  - by destruct auto_remove.
Qed.

Lemma managed_container_cleans_up_witness :
  cleanup_calls
    (trace (managed_container (nominal []) "busybox" "echo hello" true true
              failing_scope) []) =
  [EvStop demo_container (Returns tt); EvRemove demo_container (Returns tt)].
Proof.
  destruct (managed_container_cleans_up (nominal []) "busybox" "echo hello"
              true true failing_scope [] demo_container eq_refl eq_refl)
    as (cleanup & Ht & Hc).
  rewrite Ht, !cleanup_calls_app, Hc. reflexivity.
Defined.

(** C1 as stated fails: with [auto_remove] off the scope ends without any
    [remove] call, and with it on a failing [stop] leaves [remove]
    uncalled. *)
Lemma remove_is_not_always_called :
  cleanup_calls
    (trace (managed_container (nominal []) "busybox" "echo hello" true false
              quiet_scope) []) =
  [EvStop demo_container (Returns tt)] ∧
  cleanup_calls
    (trace (managed_container (with_stop stop_fails (nominal [])) "busybox"
              "echo hello" true true quiet_scope) []) =
  [EvStop demo_container (Raises (PyException "docker.errors.APIError"))].
Proof. split; reflexivity. Qed.

(** C4, as the code has it: when the block raises [e] and the cleanup then
    fails, the cleanup's exception is the one that leaves the scope, and
    nothing is logged about it (the trace ends with the failed call); [e]
    leaves the scope only when [stop] and [remove] return. *)
Theorem cleanup_failure_replaces_scope_error {A}
    env image command detach auto_remove (scope : Container → M A) h c e :
  let cmd := ["/bin/sh"; "-c"; command] in
  let entered :=
    [EvFromEnv (Returns tt); EvRun image cmd detach (Returns c);
     started_record c] in
  let body := trace (scope c) (h ++ entered) in
  let rs := container_stop env (h ++ entered ++ body) c in
  let rr := container_remove env (h ++ entered ++ body ++ [EvStop c rs]) c in
  let scoped := run (managed_container env image command detach auto_remove
                       scope) h in
  docker_from_env env h = Returns tt →
  containers_run env (h ++ [EvFromEnv (Returns tt)]) image cmd detach
    = Returns c →
  result (scope c) (h ++ entered) = Raises e →
  match rs with
  | Raises e' => scoped = (Raises e', entered ++ body ++ [EvStop c rs])
  | Returns _ =>
      if auto_remove then
        match rr with
        | Raises e' =>
            scoped =
            (Raises e', entered ++ body ++ [EvStop c rs; EvRemove c rr])
        | Returns _ =>
            scoped =
            (Raises e,
             entered ++ body
             ++ [EvStop c rs; EvRemove c rr; stopped_record c])
        end
      else
        scoped =
        (Raises e, entered ++ body ++ [EvStop c rs; stopped_record c])
  end.
Proof.
  intros cmd entered body rs rr scoped H0 H1 He. subst scoped.
  rewrite managed_container_run, H0. cbv zeta.
  unfold shell_wrapped. fold cmd. rewrite H1.
  fold entered.
  rewrite <- (trace_run (scope c)), <- (result_run (scope c)).
  fold body. rewrite He.
  rewrite stop_and_remove_run. cbv zeta. fold rs.
  destruct rs as [[]|e1] eqn:Hrs.
  - destruct auto_remove; [|done].
    replace (container_remove env _ c) with rr
      by (subst rr; by rewrite <- !app_assoc).
    by destruct rr as [[]|e2].
  - done.
Qed.

Lemma cleanup_failure_replaces_scope_error_witness :
  run (managed_container (with_stop stop_fails (nominal [])) "busybox"
         "echo hello" true true failing_scope) [] =
  (Raises (PyException "docker.errors.APIError"),
   [EvFromEnv (Returns tt);
    EvRun "busybox" ["/bin/sh"; "-c"; "echo hello"] true
      (Returns demo_container);
    started_record demo_container;
    EvStop demo_container (Raises (PyException "docker.errors.APIError"))]).
Proof.
  exact (cleanup_failure_replaces_scope_error
           (with_stop stop_fails (nominal [])) "busybox" "echo hello" true
           true failing_scope [] demo_container (PyException "RuntimeError")
           eq_refl eq_refl eq_refl).
Defined.

(** C4 as stated fails: the block raised [RuntimeError], [stop] failed, and
    what leaves the scope is the failure of [stop]; no record was logged
    after the block's start. *)
Lemma cleanup_failure_masks_scope_error :
  let scoped :=
    run (managed_container (with_stop stop_fails (nominal [])) "busybox"
           "echo hello" true true failing_scope) [] in
  (∀ h, result (failing_scope demo_container) h
        = Raises (PyException "RuntimeError")) ∧
  scoped.1 = Raises (PyException "docker.errors.APIError") ∧
  scoped.1 ≠ Raises (PyException "RuntimeError") ∧
  filter (λ ev, is_log ev) scoped.2 = [started_record demo_container].
Proof.
  intros scoped. split; [intros h; reflexivity|].
  split; [reflexivity|]. split; [discriminate|reflexivity].
Qed.

(** ** Provisioning *)

Lemma keeping_remembers : remembers_groups keeping ∧ remembers_streams keeping.
Proof.
  split.
  - intros h cw g r _ _. simpl. unfold keeping_group.
    by destruct (group_known g h).
  - intros h cw g s r _ _. simpl. unfold keeping_stream.
    by destruct (stream_known g s h).
Qed.

(** C3: each provisioning operation returns normally when the sink answers
    [ResourceAlreadyExistsException] and re-raises any other failure of the
    sink unchanged.  Hence, with a sink that does not forget what it
    created or found existing, the operation called again right after it
    returned does not fail. *)
Theorem provisioning_is_idempotent env cw g s h :
  let group := create_or_verify_cloudwatch_log_group env cw g in
  let stream := create_or_verify_cloudwatch_log_stream env cw g s in
  (∀ e, create_log_group env h cw g = Raises e →
        result group h = if is_already_exists e then Returns None
                         else Raises e) ∧
  (∀ e, create_log_stream env h cw g s = Raises e →
        result stream h = if is_already_exists e then Returns None
                          else Raises e) ∧
  (remembers_groups env →
   ∀ v t, run group h = (Returns v, t) →
          returned (result group (h ++ t)) = true) ∧
  (remembers_streams env →
   ∀ v t, run stream h = (Returns v, t) →
          returned (result stream (h ++ t)) = true).
Proof.
  intros group stream. subst group stream.
  split; [|split; [|split]].
  - intros e He. rewrite result_run, create_group_run. cbv zeta.
    rewrite He, reraised_spec. by destruct (is_already_exists e).
  - intros e He. rewrite result_run, create_stream_run. cbv zeta.
    rewrite He, reraised_spec. by destruct (is_already_exists e).
  - intros Hmem v t Hrun.
    rewrite create_group_run in Hrun. cbv zeta in Hrun.
    assert (EvCreateLogGroup g (create_log_group env h cw g) ∈ h ++ t
            ∧ accepted (create_log_group env h cw g) = true) as [Hin Hacc].
    { destruct (create_log_group env h cw g) as [[]|e] eqn:Hr.
      - inversion Hrun; subst. split; [set_solver|done].
      - rewrite reraised_spec in Hrun. simpl.
        destruct (is_already_exists e); inversion Hrun; subst.
        split; [set_solver|done]. }
    specialize (Hmem _ cw _ _ Hin Hacc).
    rewrite result_run, create_group_run. cbv zeta.
    destruct (create_log_group env (h ++ t) cw g) as [[]|e]; [done|].
    simpl in Hmem. by rewrite reraised_spec, Hmem.
  - intros Hmem v t Hrun.
    rewrite create_stream_run in Hrun. cbv zeta in Hrun.
    assert (EvCreateLogStream g s (create_log_stream env h cw g s) ∈ h ++ t
            ∧ accepted (create_log_stream env h cw g s) = true)
      as [Hin Hacc].
    { destruct (create_log_stream env h cw g s) as [[]|e] eqn:Hr.
      - inversion Hrun; subst. split; [set_solver|done].
      - rewrite reraised_spec in Hrun. simpl.
        destruct (is_already_exists e); inversion Hrun; subst.
        split; [set_solver|done]. }
    specialize (Hmem _ cw _ _ _ Hin Hacc).
    rewrite result_run, create_stream_run. cbv zeta.
    destruct (create_log_stream env (h ++ t) cw g s) as [[]|e]; [done|].
    simpl in Hmem. by rewrite reraised_spec, Hmem.
Qed.

Lemma provisioning_is_idempotent_witness :
  let group := create_or_verify_cloudwatch_log_group keeping demo_client "g1" in
  let stream :=
    create_or_verify_cloudwatch_log_stream keeping demo_client "g1" "s1" in
  run group [] = (Returns (Some tt), [EvCreateLogGroup "g1" (Returns tt)]) ∧
  run group [EvCreateLogGroup "g1" (Returns tt)] =
    (Returns None,
     [EvCreateLogGroup "g1"
        (Raises (ClientError "ResourceAlreadyExistsException"));
      EvLog INFO "Resource already exists: %s" [ArgStr "Unknown"] None]) ∧
  returned (result group ([] ++ [EvCreateLogGroup "g1" (Returns tt)])) = true ∧
  returned (result stream ([] ++ [EvCreateLogStream "g1" "s1" (Returns tt)]))
    = true.
Proof.
  intros group stream.
  destruct (provisioning_is_idempotent keeping demo_client "g1" "s1" [])
    as (_ & _ & Hg & Hs).
  destruct keeping_remembers as [Hkg Hks].
  split; [reflexivity|]. split; [reflexivity|]. split.
  - exact (Hg Hkg (Some tt) _ eq_refl).
  - exact (Hs Hks (Some tt) _ eq_refl).
Defined.

(** ** Forwarding *)

(** C2, as the code has it: when every line is valid UTF-8 and every sink
    write returns without raising, the loop makes exactly one
    [put_log_events] call per line, in the order of the lines, each with
    the single event made from that line. *)
Theorem forward_lines_submits_every_line env cw args lines fin h :
  let g := aws_cloudwatch_group args in
  let s := aws_cloudwatch_stream args in
  Forall (λ line, is_Some (utf8_decode line)) lines →
  (∀ h' evs, returned (put_log_events env h' cw g s evs) = true) →
  Forall2 (submits g s)
    (put_calls (trace (forward_lines env cw args lines fin) h)) lines.
Proof.
  intros g s Hdec Hput. revert h.
  induction Hdec as [|line rest [msg Hd] _ IH]; intros h.
  - rewrite trace_run, forward_lines_nil. constructor.
  - rewrite trace_run, forward_lines_cons, write_logs_to_cloudwatch_run, Hd.
    cbv zeta. fold g s.
    pose proof (Hput (h ++ [log_line line])
                  [LogEvent (epoch_ms env (h ++ [log_line line])) msg]) as Hr.
    destruct (put_log_events env _ cw g s _) as [resp|e]; [|done].
    cbn [fst snd]. rewrite result_trace. cbn [snd].
    cbn [app].
    change (put_calls (?x :: ?a :: ?b :: ?t))
      with (put_calls [x; a] ++ put_calls (b :: t)).
    rewrite put_calls_sent_record. cbn [put_calls omap list_omap log_line app].
    constructor; [by exists (epoch_ms env (h ++ [log_line line])), msg|].
    apply IH.
Qed.

Lemma forward_lines_submits_every_line_witness :
  Forall2 (submits "g1" "s1")
    (put_calls (trace (forward_lines (nominal [hello; hello]) demo_client
                         demo_args [hello; hello] None) []))
    [hello; hello].
Proof.
  apply (forward_lines_submits_every_line (nominal [hello; hello])
           demo_client demo_args [hello; hello] None []).
  - repeat constructor; by eexists.
  - reflexivity.
Defined.

(** C2 as stated fails: the sink accepts every write, the container prints
    three lines, and a single [put_log_events] call is made, because the
    second line is not valid UTF-8. *)
Lemma undecodable_line_breaks_the_count :
  (∀ h cw g s evs,
     returned (put_log_events (nominal [hello; garbage; hello]) h cw g s evs)
     = true) ∧
  length (put_calls
            (trace (forward_lines (nominal [hello; garbage; hello])
                      demo_client demo_args [hello; garbage; hello] None) []))
  = 1 ∧
  length [hello; garbage; hello] = 3.
Proof. split; [by intros|]. split; reflexivity. Qed.

(** ** Provisioning comes first *)

(** C7: in every run of [main], whatever precedes a [containers.run] call
    in the trace holds the call creating the log group and, after it, the
    call creating the log stream, each answered by success or by the
    suppressed already-exists error.  And when the sink answers either
    creation call with another error [e], [main] raises [e] and its trace
    holds no [containers.run] call and no [put_log_events] call. *)
Theorem no_container_before_provisioning env h :
  let t := trace (main env) h in
  (∀ t1 image cmd d r t2,
     t = t1 ++ EvRun image cmd d r :: t2 →
     ∃ args rg rs ta tb tc,
       t1 = ta
            ++ EvCreateLogGroup (aws_cloudwatch_group args) rg :: tb
            ++ EvCreateLogStream (aws_cloudwatch_group args)
                 (aws_cloudwatch_stream args) rs :: tc ∧
       EvParseArguments (Returns args) ∈ ta ∧
       accepted rg = true ∧ accepted rs = true) ∧
  (∀ e,
     (∃ g, EvCreateLogGroup g (Raises e) ∈ t) ∨
     (∃ g s, EvCreateLogStream g s (Raises e) ∈ t) →
     is_already_exists e = false →
     result (main env) h = Raises e ∧ run_calls t = [] ∧ put_calls t = []).
Proof.
  intros t. subst t.
  pose proof (main_run_shape env h) as Hshape. split.
  - by apply (shape_run_needs_provisioning _ _ Hshape).
  - by apply (shape_failed_provisioning _ _ Hshape).
Qed.

Lemma no_container_before_provisioning_witness :
  let t := trace (main (nominal [hello])) [] in
  t = take 5 t
      ++ EvRun "busybox" ["/bin/sh"; "-c"; "echo hello"] true
           (Returns demo_container) :: drop 6 t ∧
  (∃ args rg rs ta tb tc,
     take 5 t
     = ta
       ++ EvCreateLogGroup (aws_cloudwatch_group args) rg :: tb
       ++ EvCreateLogStream (aws_cloudwatch_group args)
            (aws_cloudwatch_stream args) rs :: tc ∧
     EvParseArguments (Returns args) ∈ ta ∧
     accepted rg = true ∧ accepted rs = true) ∧
  EvCreateLogGroup "g1" (Raises (ClientError "AccessDeniedException"))
    ∈ trace (main refusing) [] ∧
  result (main refusing) [] = Raises (ClientError "AccessDeniedException") ∧
  run_calls (trace (main refusing) []) = [] ∧
  put_calls (trace (main refusing) []) = [].
Proof.
  intros t.
  assert (t = take 5 t
              ++ EvRun "busybox" ["/bin/sh"; "-c"; "echo hello"] true
                   (Returns demo_container) :: drop 6 t) as Hcut
    by reflexivity.
  assert (EvCreateLogGroup "g1"
            (Raises (ClientError "AccessDeniedException"))
          ∈ trace (main refusing) []) as Hin
    by (vm_compute; repeat constructor).
  split; [exact Hcut|]. split.
  - exact (proj1 (no_container_before_provisioning (nominal [hello]) [])
             _ _ _ _ _ _ Hcut).
  - split; [exact Hin|].
    exact (proj2 (no_container_before_provisioning refusing [])
             (ClientError "AccessDeniedException")
             (or_introl (ex_intro (λ g, EvCreateLogGroup g _ ∈ _) "g1" Hin))
             eq_refl).
Defined.

(** ** A failing write *)

(** C6, as the code has it: when a [put_log_events] call of a run of
    [main] raises an error [e] other than already-exists, that call is the
    one for some line [k] of the stream; the calls before it are exactly
    those for lines 1 to [k-1], in order, and none follows; [e] is logged
    and leaves the loop; the cleanup then calls [stop], and calls [remove]
    only once [stop] has returned.  When [stop] and [remove] return, [e]
    itself leaves [main]; when one of them raises, its exception leaves
    [main] instead and the calls after it are not made.  The interpreter
    exits with status 1 whenever what leaves [main] is an [Exception].  An
    already-exists error is logged at INFO level, the write returns
    normally, and the loop goes on with the lines that remain. *)
Theorem sink_failure_policy env :
  (∀ h g s evs e,
     EvPutLogEvents g s evs (Raises e) ∈ trace (main env) h →
     is_Exception e = true →
     is_already_exists e = false →
     ∃ before c strm pre line post sent cleanup oc,
       trace (main env) h =
         before ++ EvLogs c strm :: sent
         ++ log_line line :: EvPutLogEvents g s evs (Raises e)
         :: failure_record e ++ cleanup ∧
       put_calls before = [] ∧
       stream_lines strm = pre ++ line :: post ∧
       Forall2 (submits g s) (put_calls sent) pre ∧
       submits g s (g, s, evs) line ∧
       cleaned c oc cleanup ∧
       result (main env) h =
         match oc with Returns _ => Raises e | Raises e' => Raises e' end ∧
       (match oc with
        | Returns _ => True
        | Raises e' => is_Exception e' = true
        end → exit_status env h = Some 1%Z)) ∧
  (∀ h cw args line msg e rest fin,
     let g := aws_cloudwatch_group args in
     let s := aws_cloudwatch_stream args in
     let h1 := h ++ [log_line line] in
     let evs := [LogEvent (epoch_ms env h1) msg] in
     let step :=
       [EvPutLogEvents g s evs (Raises e);
        EvLog INFO "Resource already exists: %s" [ArgStr "Unknown"] None] in
     utf8_decode line = Some msg →
     put_log_events env h1 cw g s evs = Raises e →
     is_already_exists e = true →
     run (write_logs_to_cloudwatch env cw args line) h1 =
       (Returns None, step) ∧
     run (forward_lines env cw args (line :: rest) fin) h =
       (result (forward_lines env cw args rest fin)
          (h ++ log_line line :: step),
        log_line line :: step
        ++ trace (forward_lines env cw args rest fin)
             (h ++ log_line line :: step))).
Proof.
  split.
  - intros h g s evs e Hin Hexc Hne.
    destruct (shape_failed_put _ _ _ _ _ _ (main_run_shape env h) Hin Hne)
      as (before & c & strm & pre & line & post & sent & cleanup & oc
          & Ht & Hb & Hl & Hsent & Hline & Hc & Hr).
    exists before, c, strm, pre, line, post, sent, cleanup, oc.
    repeat (split; [done|]). unfold exit_status. rewrite Hr.
    destruct oc as [[]|e']; [by rewrite Hexc|by intros ->].
  - intros h cw args line msg e rest fin g s h1 evs step Hd Hp Hae.
    assert (run (write_logs_to_cloudwatch env cw args line) h1 =
            (Returns None, step)) as Hw.
    { rewrite write_logs_to_cloudwatch_run, Hd. cbv zeta.
      fold g s h1 evs. rewrite Hp, reraised_spec, Hae.
      destruct e as [code| | | |]; try done. simpl in *.
      by rewrite Hae. }
    split; [done|].
    rewrite forward_lines_cons. fold h1. rewrite Hw. simpl.
    by rewrite (result_trace (forward_lines env cw args rest fin)).
Qed.

Lemma sink_failure_policy_witness :
  let failed :=
    EvPutLogEvents "g1" "s1"
      [LogEvent 1700000000015 [104; 101; 108; 108; 111]%N]
      (Raises (ClientError "ThrottlingException")) in
  failed ∈ trace (main throttled) [] ∧
  length (put_calls (trace (main throttled) [])) = 3 ∧
  (∃ before c strm pre line post sent cleanup oc,
     trace (main throttled) [] =
       before ++ EvLogs c strm :: sent
       ++ log_line line :: failed
       :: failure_record (ClientError "ThrottlingException") ++ cleanup ∧
     put_calls before = [] ∧
     stream_lines strm = pre ++ line :: post ∧
     Forall2 (submits "g1" "s1") (put_calls sent) pre ∧
     submits "g1" "s1"
       ("g1", "s1", [LogEvent 1700000000015 [104; 101; 108; 108; 111]%N])
       line ∧
     cleaned c oc cleanup ∧
     result (main throttled) [] =
       match oc with
       | Returns _ => Raises (ClientError "ThrottlingException")
       | Raises e' => Raises e'
       end ∧
     (match oc with
      | Returns _ => True
      | Raises e' => is_Exception e' = true
      end → exit_status throttled [] = Some 1%Z)) ∧
  length (put_calls
            (trace (forward_lines echoing demo_client demo_args
                      [hello; hello] None) [])) = 2.
Proof.
  intros failed.
  assert (failed ∈ trace (main throttled) []) as Hin
    by (vm_compute; repeat constructor).
  destruct (sink_failure_policy throttled) as [Hfatal _].
  destruct (sink_failure_policy echoing) as [_ Hexists].
  split; [exact Hin|]. split; [reflexivity|]. split.
  - exact (Hfatal [] _ _ _ _ Hin eq_refl eq_refl).
  - destruct (Hexists [] demo_client demo_args hello _
                (ClientError "ResourceAlreadyExistsException") [hello] None
                eq_refl eq_refl eq_refl) as [_ Hl].
    rewrite trace_run, Hl. reflexivity.
Defined.

(** C6 as stated fails: the third write raises [ThrottlingException], as
    the claim supposes, and [stop] then fails; no [remove] call is made,
    and what leaves [main] is the failure of [stop], not the error of the
    sink. *)
Lemma failed_stop_leaves_the_container :
  EvPutLogEvents "g1" "s1"
    [LogEvent 1700000000015 [104; 101; 108; 108; 111]%N]
    (Raises (ClientError "ThrottlingException"))
    ∈ trace (main throttled_stop_fails) [] ∧
  cleanup_calls (trace (main throttled_stop_fails) []) =
    [EvStop demo_container (Raises (PyException "docker.errors.APIError"))] ∧
  filter (λ ev, is_remove ev) (trace (main throttled_stop_fails) []) = [] ∧
  result (main throttled_stop_fails) [] =
    Raises (PyException "docker.errors.APIError").
Proof.
  split; [vm_compute; repeat constructor|].
  split; [reflexivity|]. split; reflexivity.
Qed.

(** * Further properties *)

(** ** The loop never skips, repeats or reorders *)

Lemma forwarding_prefix g s lines fin o t :
  forwarding g s lines fin o t →
  ∃ k, (k ≤ length lines)%nat ∧
       Forall2 (submits g s) (put_calls t) (take k lines) ∧
       (o = Returns tt → k = length lines ∧ fin = None).
Proof.
  induction 1 as [|e0|line rest fin Hd|line rest fin ts msg resp o t Hd Hf IH
                 |line rest fin ts msg e0 o t Hd He0 Hf IH
                 |line rest fin ts msg e0 Hd He0].
  - exists 0. split; [done|]. split; [constructor|done].
  - exists 0. split; [done|]. split; [constructor|done].
  - exists 0. split; [simpl; lia|]. split; [|done].
    change (put_calls (log_line line :: ?t)) with (put_calls t).
    rewrite put_calls_failure_record. constructor.
  - destruct IH as (k & Hk & Hsub & Hret).
    exists (S k). split; [simpl; lia|]. split.
    + change (put_calls (log_line line :: ?a :: ?b :: ?t))
        with (put_calls [log_line line; a] ++ put_calls (b :: t)).
      rewrite put_calls_sent_record. simpl.
      constructor; [by exists ts, msg|done].
    + intros Ho. destruct (Hret Ho) as [-> ->]. done.
  - destruct IH as (k & Hk & Hsub & Hret).
    exists (S k). split; [simpl; lia|]. split.
    + change (put_calls (log_line line :: ?a :: ?t))
        with (put_calls [log_line line; a] ++ put_calls t).
      rewrite put_calls_app, put_calls_failure_record. simpl.
      constructor; [by exists ts, msg|done].
    + intros Ho. destruct (Hret Ho) as [-> ->]. done.
  - exists 1. split; [simpl; lia|]. split; [|done].
    change (put_calls (log_line line :: ?a :: ?t))
      with (put_calls [log_line line; a] ++ put_calls t).
    rewrite put_calls_failure_record. simpl.
    constructor; [by exists ts, msg|constructor].
Qed.

(** X1: whatever the collaborators answer and whatever the lines hold, the
    [put_log_events] calls of the loop are one call for each of the first
    [k] lines, in order, for some [k]: no line is submitted twice, none is
    skipped in between, none is retried; and when the loop returns normally
    every line was submitted and the stream had ended cleanly. *)
Theorem forward_lines_submits_a_prefix env cw args lines fin h :
  ∃ k, (k ≤ length lines)%nat ∧
       Forall2 (submits (aws_cloudwatch_group args)
                  (aws_cloudwatch_stream args))
         (put_calls (trace (forward_lines env cw args lines fin) h))
         (take k lines) ∧
       (result (forward_lines env cw args lines fin) h = Returns tt →
        k = length lines ∧ fin = None).
Proof.
  apply (forwarding_prefix _ _ _ _ _ _
           (forward_lines_shape env cw args lines fin h)).
Qed.

(** ** What a normal return of [main] means *)

(** X2: when [main] returns normally, both provisioning calls were
    accepted, one container was started, its stream ended cleanly, every
    line it printed was submitted by exactly one [put_log_events] call, in
    order, and the run ended with [stop] and [remove] returning. *)
Theorem main_returns_after_forwarding_everything env h :
  result (main env) h = Returns tt →
  ∃ args rg rs c strm sent,
    trace (main env) h =
      provisioned args rg rs ++ streaming args c strm ++ sent
      ++ [EvStop c (Returns tt); EvRemove c (Returns tt); stopped_record c] ∧
    accepted rg = true ∧ accepted rs = true ∧
    stream_end strm = None ∧
    Forall2 (submits (aws_cloudwatch_group args) (aws_cloudwatch_stream args))
      (put_calls sent) (stream_lines strm).
Proof.
  intros Hret. pose proof (main_run_shape env h) as Hshape.
  rewrite Hret in Hshape.
  remember (Returns tt) as o0 eqn:Ho.
  destruct Hshape as [| | | | | |args rg rs c strm o tl oc tc Hg Hs Hf Hc];
    try discriminate Ho.
  destruct Hc as [e|e|]; try discriminate Ho.
  destruct (forwarding_prefix _ _ _ _ _ _ Hf) as (k & _ & Hsub & Hall).
  destruct (Hall Ho) as [-> Hfin].
  rewrite firstn_all in Hsub. subst o.
  by exists args, rg, rs, c, strm, tl.
Qed.

Lemma main_returns_after_forwarding_everything_witness :
  result (main (nominal [hello; hello])) [] = Returns tt ∧
  ∃ args rg rs c strm sent,
    trace (main (nominal [hello; hello])) [] =
      provisioned args rg rs ++ streaming args c strm ++ sent
      ++ [EvStop c (Returns tt); EvRemove c (Returns tt); stopped_record c] ∧
    accepted rg = true ∧ accepted rs = true ∧
    stream_end strm = None ∧
    Forall2 (submits (aws_cloudwatch_group args) (aws_cloudwatch_stream args))
      (put_calls sent) (stream_lines strm).
Proof.
  split; [reflexivity|].
  exact (main_returns_after_forwarding_everything (nominal [hello; hello]) []
           eq_refl).
Defined.

(** ** Containers are not left behind *)

Lemma apart_cleanup : apart (λ ev, is_stop ev || is_remove ev).
Proof. by intros []. Qed.

(** Splits a hypothesis of membership in a trace built from the shapes and
    drops the cases the kinds of the events exclude. *)
Ltac sift :=
  repeat match goal with
  | H : _ ∨ _ |- _ => destruct H as [H|H]
  | H : False |- _ => destruct H
  | H : _ ∈ failure_record _ |- _ =>
      exfalso; revert H;
      apply not_elem_logs; [apply failure_record_logs|reflexivity]
  | H : _ ∈ answer_record _ |- _ =>
      exfalso; revert H;
      apply not_elem_logs; [apply answer_record_logs|reflexivity]
  | H : _ ∈ ?tl, Hf : forwarding _ _ _ _ _ ?tl |- _ =>
      exfalso; revert H;
      apply (not_elem_forwarding _ _ _ _ _ _ _ Hf); reflexivity
  | H : @eq event _ _ |- _ => discriminate H || (injection H as ?; subst)
  end.

Lemma cleanup_calls_forwarded args rg rs c strm g s lines fin o tl tc :
  forwarding g s lines fin o tl →
  cleanup_calls (provisioned args rg rs ++ streaming args c strm ++ tl ++ tc)
  = cleanup_calls tc.
Proof.
  intros Hf. rewrite !cleanup_calls_app. unfold cleanup_calls at 1 2 3.
  rewrite (filter_none _ (provisioned args rg rs)) by none_of apart_cleanup.
  rewrite (filter_none _ tl) by none_of apart_cleanup.
  reflexivity.
Qed.

Lemma run_calls_forwarded args rg rs c strm g s lines fin o tl oc tc :
  forwarding g s lines fin o tl →
  cleaned c oc tc →
  run_calls (provisioned args rg rs ++ streaming args c strm ++ tl ++ tc)
  = [EvRun (docker_image args) (shell_wrapped (bash_command args)) true
       (Returns c)].
Proof.
  intros Hf Hc. unfold run_calls. rewrite !filter_app.
  rewrite (filter_none _ (provisioned args rg rs)) by none_of apart_run.
  rewrite (filter_none _ tl) by none_of apart_run.
  by destruct Hc.
Qed.

Lemma shape_stops_what_it_starts o t :
  main_shape o t →
  (length (run_calls t) ≤ 1)%nat ∧
  (∀ image cmd d c,
     EvRun image cmd d (Returns c) ∈ t →
     ∃ rs rest,
       cleanup_calls t = EvStop c rs :: rest ∧
       (rest = [] ∧ returned rs = false ∨
        ∃ rr, rest = [EvRemove c rr] ∧ returned rs = true)) ∧
  ((∀ image cmd d c, EvRun image cmd d (Returns c) ∉ t) →
   cleanup_calls t = []).
Proof.
  destruct 1 as [e|args e|args e He|args rg e Hg He|args rg rs e Hg Hs
                |args rg rs e Hg Hs|args rg rs c strm o tl oc tc Hg Hs Hf Hc].
  1-6: split;
    [unfold run_calls; rewrite ?filter_app;
     rewrite ?(filter_none _ (provisioned _ _ _)) by none_of apart_run;
     rewrite ?filter_none by none_of apart_run; simpl; lia
    |split;
     [intros image cmd d c Hin; exfalso;
      unfold provisioned, connected in Hin; set_unfold in Hin; sift
     |intros _; apply filter_none; none_of apart_cleanup]].
  rewrite (run_calls_forwarded _ _ _ _ _ _ _ _ _ _ _ _ _ Hf Hc),
            (cleanup_calls_forwarded _ _ _ _ _ _ _ _ _ _ _ tc Hf).
  split; [simpl; lia|]. split.
  - intros image cmd d c0 Hin.
    assert (c0 = c) as ->.
    { destruct Hc; unfold provisioned, connected, streaming in Hin;
        set_unfold in Hin; sift; done. }
    destruct Hc as [e|e|].
    + exists (Raises e), []. split; [done|]. by left.
    + exists (Returns tt), [EvRemove c (Raises e)].
      split; [done|]. right. by eexists.
    + exists (Returns tt), [EvRemove c (Returns tt)].
      split; [done|]. right. by eexists.
  - intros Hno. exfalso.
    apply (Hno (docker_image args) (shell_wrapped (bash_command args))
             true c).
    unfold streaming. set_solver.
Qed.

(** X3: in every run of [main] at most one container is started; a
    container that [containers.run] returned gets exactly one [stop] call,
    followed by exactly one [remove] call when [stop] returned, however the
    run ends; and when no container was returned neither [stop] nor
    [remove] is ever called. *)
Theorem main_stops_what_it_starts env h :
  let t := trace (main env) h in
  (length (run_calls t) ≤ 1)%nat ∧
  (∀ image cmd d c,
     EvRun image cmd d (Returns c) ∈ t →
     ∃ rs rest,
       cleanup_calls t = EvStop c rs :: rest ∧
       (rest = [] ∧ returned rs = false ∨
        ∃ rr, rest = [EvRemove c rr] ∧ returned rs = true)) ∧
  ((∀ image cmd d c, EvRun image cmd d (Returns c) ∉ t) →
   cleanup_calls t = []).
Proof. exact (shape_stops_what_it_starts _ _ (main_run_shape env h)). Qed.

(** ** An existing group or stream does not stop the run *)

(** Finds an event in a trace written with [::] and [++]. *)
Ltac find_elem :=
  first
    [ apply list_elem_of_here
    | apply list_elem_of_further; find_elem
    | apply elem_of_app; left; find_elem
    | apply elem_of_app; right; find_elem ].

Lemma apart_create_group : apart is_create_group.
Proof. by intros []. Qed.

Lemma apart_create_stream : apart is_create_stream.
Proof. by intros []. Qed.

(** A list with a single element of kind [P] is cut at that element in one
    way only. *)
Lemma unique_cut {A} (P : A → bool) (p r t1 t2 : list A) (x0 x : A) :
  p ++ x0 :: r = t1 ++ x :: t2 →
  Forall (λ y, P y = false) p → Forall (λ y, P y = false) r →
  P x = true →
  t1 = p ∧ x = x0 ∧ t2 = r.
Proof.
  intros Heq Hp Hr Hx.
  destruct (cut_after_prefix P _ _ _ _ _ Heq Hp Hx) as (m & -> & Hq).
  destruct m as [|y m]; simpl in Hq.
  - injection Hq as -> ->. by rewrite app_nil_r.
  - injection Hq as -> Hq. exfalso. by apply (no_cut P _ _ _ _ Hq Hr Hx).
Qed.

Lemma shape_accepted_proceeds o t :
  main_shape o t →
  (∀ t1 g rg t2,
     t = t1 ++ EvCreateLogGroup g rg :: t2 → accepted rg = true →
     ∃ s rs, EvCreateLogStream g s rs ∈ t2) ∧
  (∀ t1 g s rs t2,
     t = t1 ++ EvCreateLogStream g s rs :: t2 → accepted rs = true →
     ∃ r, EvFromEnv r ∈ t2).
Proof.
  destruct 1 as [e|args e|args e He|args rg e Hg He|args rg rs e Hg Hs
                |args rg rs e Hg Hs|args rg rs c strm o tl oc tc Hg Hs Hf Hc].
  7: destruct Hc.
  all: split; [intros t1 g0 rg0 t2 Heq Hacc|intros t1 g0 s0 rs0 t2 Heq Hacc].
  (* traces without the call *)
  1-4,6:
    exfalso;
    first [ eapply (no_cut is_create_group);
            [exact Heq|none_of apart_create_group|done]
          | eapply (no_cut is_create_stream);
            [exact Heq|none_of apart_create_stream|done] ].
  (* the group call *)
  all: unfold provisioned in Heq.
  all: try match type of Heq with
       | _ = _ ++ EvCreateLogGroup _ _ :: _ =>
           rewrite <- ?app_assoc in Heq; simpl in Heq;
           apply (unique_cut is_create_group (connected _)) in Heq
             as (-> & Hx & ->);
           [injection Hx as -> ->|none_of apart_create_group
           |none_of apart_create_group|done]
       end.
  all: try (simpl in Hacc; congruence).
  all: try (eexists; eexists; find_elem).
  (* the stream call *)
  all: unfold connected in Heq;
       repeat first [progress simpl in Heq | rewrite <- app_assoc in Heq].
  all: change (?a :: ?b :: ?c :: answer_record ?r ++ ?x0 :: ?l)
         with ((a :: b :: c :: answer_record r) ++ x0 :: l) in Heq.
  all: apply (unique_cut is_create_stream) in Heq as (-> & Hx & ->);
       [injection Hx as -> -> ->|none_of apart_create_stream
       |none_of apart_create_stream|done].
  all: try (simpl in Hacc; congruence).
  all: eexists; find_elem.
Qed.

(** X4: in every run of [main], a log-group creation answered by success or
    by the already-exists error is followed, later in the trace, by the
    creation of the log stream in that group, and a log-stream creation
    answered by either is followed, later in the trace, by the
    construction of the Docker client: an existing group or stream never
    ends the run. *)
Theorem accepted_provisioning_proceeds env h :
  let t := trace (main env) h in
  (∀ t1 g rg t2,
     t = t1 ++ EvCreateLogGroup g rg :: t2 → accepted rg = true →
     ∃ s rs, EvCreateLogStream g s rs ∈ t2) ∧
  (∀ t1 g s rs t2,
     t = t1 ++ EvCreateLogStream g s rs :: t2 → accepted rs = true →
     ∃ r, EvFromEnv r ∈ t2).
Proof. exact (shape_accepted_proceeds _ _ (main_run_shape env h)). Qed.

(** ** What the already-exists record says *)

Lemma exists_record_in_failure_record e lvl args exc :
  EvLog lvl "Resource already exists: %s" args exc ∈ failure_record e →
  lvl = INFO ∧ args = [ArgStr "Unknown"] ∧ exc = None.
Proof.
  destruct e as [code| | | |]; simpl; [destruct (already_exists code)|..];
    intros Hin; set_unfold in Hin; sift; done.
Qed.

Lemma exists_record_in_forwarding g s lines fin o t lvl args exc :
  forwarding g s lines fin o t →
  EvLog lvl "Resource already exists: %s" args exc ∈ t →
  lvl = INFO ∧ args = [ArgStr "Unknown"] ∧ exc = None.
Proof.
  induction 1 as [|e0|line rest fin Hd|line rest fin ts msg resp o t Hd Hf IH
                 |line rest fin ts msg e0 o t Hd He0 Hf IH
                 |line rest fin ts msg e0 Hd He0]; intros Hin.
  - set_solver.
  - set_solver.
  - apply elem_of_cons in Hin as [Hin|Hin]; [done|].
    by apply exists_record_in_failure_record in Hin.
  - apply elem_of_cons in Hin as [Hin|Hin]; [done|].
    apply elem_of_cons in Hin as [Hin|Hin]; [done|].
    apply elem_of_cons in Hin as [Hin|Hin]; [|by apply IH].
    unfold sent_record in Hin. by destruct (has_Failed resp).
  - apply elem_of_cons in Hin as [Hin|Hin]; [done|].
    apply elem_of_cons in Hin as [Hin|Hin]; [done|].
    apply elem_of_app in Hin as [Hin|Hin]; [|by apply IH].
    by apply exists_record_in_failure_record in Hin.
  - apply elem_of_cons in Hin as [Hin|Hin]; [done|].
    apply elem_of_cons in Hin as [Hin|Hin]; [done|].
    by apply exists_record_in_failure_record in Hin.
Qed.

Lemma exists_record_in_answer_record {A} (r : outcome A) lvl args exc :
  EvLog lvl "Resource already exists: %s" args exc ∈ answer_record r →
  lvl = INFO ∧ args = [ArgStr "Unknown"] ∧ exc = None.
Proof.
  destruct r as [v|e]; simpl; [set_solver|].
  apply exists_record_in_failure_record.
Qed.

Lemma shape_exists_record o t lvl args exc :
  main_shape o t →
  EvLog lvl "Resource already exists: %s" args exc ∈ t →
  lvl = INFO ∧ args = [ArgStr "Unknown"] ∧ exc = None.
Proof.
  destruct 1 as [e|args0 e|args0 e He|args0 rg e Hg He|args0 rg rs e Hg Hs
                |args0 rg rs e Hg Hs|args0 rg rs c strm o tl oc tc Hg Hs Hf Hc];
    intros Hin.
  7: destruct Hc.
  all: unfold provisioned, connected, streaming, started_record,
         stopped_record in Hin.
  all: set_unfold in Hin.
  all: repeat match goal with
       | H : _ ∨ _ |- _ => destruct H as [H|H]
       | H : False |- _ => destruct H
       | H : _ ∈ failure_record _ |- _ =>
           apply exists_record_in_failure_record in H
       | H : _ ∈ answer_record _ |- _ =>
           apply exists_record_in_answer_record in H
       | H : _ ∈ ?tl, Hf : forwarding _ _ _ _ _ ?tl |- _ =>
           apply (exists_record_in_forwarding _ _ _ _ _ _ _ _ _ Hf) in H
       | H : @eq event _ _ |- _ => discriminate H
       end.
  all: done.
Qed.

(** X5: the decorated functions are always called with positional
    arguments, so the record logged when a resource already exists never
    names the resource: in every run of [main] each
    ["Resource already exists: %s"] record is an INFO record whose only
    argument is ["Unknown"]. *)
Theorem exists_record_never_names_the_resource env h lvl args exc :
  EvLog lvl "Resource already exists: %s" args exc ∈ trace (main env) h →
  lvl = INFO ∧ args = [ArgStr "Unknown"] ∧ exc = None.
Proof. exact (shape_exists_record _ _ _ _ _ (main_run_shape env h)). Qed.

Lemma exists_record_never_names_the_resource_witness :
  let t :=
    trace (main (with_create keeping_group keeping_stream (nominal [])))
          [EvCreateLogGroup "g1" (Returns tt)] in
  EvLog INFO "Resource already exists: %s" [ArgStr "Unknown"] None ∈ t ∧
  INFO = INFO ∧ [ArgStr "Unknown"] = [ArgStr "Unknown"] ∧ @None exn = None.
Proof.
  intros t.
  assert (EvLog INFO "Resource already exists: %s" [ArgStr "Unknown"] None ∈ t)
    as Hin by (vm_compute; repeat constructor).
  split; [exact Hin|].
  exact (exists_record_never_names_the_resource _ _ _ _ _ Hin).
Defined.

(** ** Where an exception of [main] comes from *)

Lemma forwarding_raises g s lines fin e t :
  forwarding g s lines fin (Raises e) t →
  (e = UnicodeDecodeError ∧ ∃ line, line ∈ lines ∧ utf8_decode line = None)
  ∨ fin = Some e
  ∨ ∃ ev, ev ∈ t ∧ raised_by ev = Some e.
Proof.
  remember (Raises e) as o eqn:Ho.
  induction 1 as [|e0|line rest fin Hd|line rest fin ts msg resp o t Hd Hf IH
                 |line rest fin ts msg e0 o t Hd He0 Hf IH
                 |line rest fin ts msg e0 Hd He0].
  - discriminate.
  - injection Ho as ->. by right; left.
  - injection Ho as <-. left. split; [done|]. exists line. set_solver.
  - destruct (IH Ho) as [(-> & line' & Hin & Hnone)|[->|(ev & Hin & Hev)]].
    + left. split; [done|]. exists line'. set_solver.
    + by right; left.
    + right; right. exists ev. set_solver.
  - destruct (IH Ho) as [(-> & line' & Hin & Hnone)|[->|(ev & Hin & Hev)]].
    + left. split; [done|]. exists line'. set_solver.
    + by right; left.
    + right; right. exists ev. set_solver.
  - injection Ho as ->. right; right.
    exists (EvPutLogEvents g s [LogEvent ts msg] (Raises e)). set_solver.
Qed.

Lemma shape_raises o t e :
  main_shape o t → o = Raises e →
  (e = UnicodeDecodeError ∧
   ∃ c strm line,
     EvLogs c strm ∈ t ∧ line ∈ stream_lines strm ∧ utf8_decode line = None)
  ∨ ∃ ev, ev ∈ t ∧ raised_by ev = Some e.
Proof.
  destruct 1 as [e0|args e0|args e0 He|args rg e0 Hg He|args rg rs e0 Hg Hs
                |args rg rs e0 Hg Hs|args rg rs c strm o tl oc tc Hg Hs Hf Hc];
    intros Ho.
  1-6: injection Ho as ->; right.
  - exists (EvParseArguments (Raises e)). split; [find_elem|done].
  - exists (EvBotoClient (client_of args) (Raises e)).
    split; [find_elem|done].
  - exists (EvCreateLogGroup (aws_cloudwatch_group args) (Raises e)).
    split; [unfold connected; simpl; find_elem|done].
  - exists (EvCreateLogStream (aws_cloudwatch_group args)
              (aws_cloudwatch_stream args) (Raises e)).
    split; [unfold connected; simpl; find_elem|done].
  - exists (EvFromEnv (Raises e)). split; [find_elem|done].
  - exists (EvRun (docker_image args) (shell_wrapped (bash_command args))
              true (Raises e)).
    split; [find_elem|done].
  - destruct Hc as [e1|e1|].
    { injection Ho as ->. right. exists (EvStop c (Raises e)).
      split; [find_elem|done]. }
    { injection Ho as ->. right. exists (EvRemove c (Raises e)).
      split; [find_elem|done]. }
    subst o.
    destruct (forwarding_raises _ _ _ _ _ _ Hf)
      as [(-> & line & Hin & Hnone)|[Hfin|(ev & Hin & Hev)]].
    + left. split; [done|]. exists c, strm, line.
      split; [unfold streaming; simpl; find_elem|done].
    + right. exists (EvLogs c strm).
      split; [unfold streaming; simpl; find_elem|done].
    + right. exists ev. split; [|done].
      apply elem_of_app; right. apply elem_of_app; right.
      apply elem_of_app; by left.
Qed.

(** X6: [main] raises nothing of its own.  An exception that leaves [main]
    is either the [UnicodeDecodeError] of a line of the stream that is not
    valid UTF-8, or the very exception one of the recorded calls to a
    collaborator ended with (the end of the stream included). *)
Theorem main_raises_only_what_it_was_handed env h e :
  result (main env) h = Raises e →
  (e = UnicodeDecodeError ∧
   ∃ c strm line,
     EvLogs c strm ∈ trace (main env) h ∧
     line ∈ stream_lines strm ∧ utf8_decode line = None)
  ∨ ∃ ev, ev ∈ trace (main env) h ∧ raised_by ev = Some e.
Proof. exact (shape_raises _ _ _ (main_run_shape env h)). Qed.

Lemma main_raises_only_what_it_was_handed_witness :
  result (main throttled) [] = Raises (ClientError "ThrottlingException") ∧
  ((ClientError "ThrottlingException" = UnicodeDecodeError ∧
    ∃ c strm line,
      EvLogs c strm ∈ trace (main throttled) [] ∧
      line ∈ stream_lines strm ∧ utf8_decode line = None)
   ∨ ∃ ev, ev ∈ trace (main throttled) [] ∧
           raised_by ev = Some (ClientError "ThrottlingException")).
Proof.
  split; [reflexivity|].
  exact (main_raises_only_what_it_was_handed throttled [] _ eq_refl).
Defined.

(** ** The decorator, whatever it wraps *)

(** X7: for any keyword arguments and any wrapped function whose
    [ClientError]s carry an error code, as every [ClientError] raised by
    botocore does, the wrapper returns the function's value and adds
    nothing to its trace when the function returns; when the function raises it re-raises the very same
    exception, except the already-exists error, which it turns into a
    normal return; it logs exactly one record for an [Exception] and none
    for an interrupt; and the already-exists record names the value of the
    [group_name] keyword when the call has one. *)
Theorem decorator_contract {A} (func : M A) kwargs h :
  let o := result func h in
  let t := trace func h in
  let o' := result (handle_cloudwatch_errors func kwargs) h in
  let t' := trace (handle_cloudwatch_errors func kwargs) h in
  (∀ v, o = Returns v → o' = Returns (Some v) ∧ t' = t) ∧
  (∀ e, o = Raises e →
        o' = (if is_already_exists e then Returns None else Raises e) ∧
        ∃ rec, t' = t ++ rec ∧
               Forall (λ ev, is_log ev = true) rec ∧
               length rec = if is_Exception e then 1 else 0) ∧
  (∀ e g, o = Raises e → is_already_exists e = true →
          kwargs !! "group_name" = Some g →
          t' = t ++ [EvLog INFO "Resource already exists: %s" [ArgStr g]
                       None]).
Proof.
  intros o t o' t'. subst o t o' t'.
  rewrite !result_run, !trace_run. unfold handle_cloudwatch_errors.
  rewrite run_try_except, run_bind.
  destruct (run func h) as [[v|e] t] eqn:Hf; cbn [fst snd].
  - split; [|split]; [|done..].
    intros v' [= <-]. simpl. by rewrite app_nil_r.
  - split; [done|]. split.
    + intros e' [= <-].
      destruct e as [code| | | |]; simpl; rewrite ?app_nil_r.
      * destruct (already_exists code); simpl;
          (split; [done|]); eexists; (split; [done|]);
          split; [repeat constructor|done|repeat constructor|done].
      * split; [done|]. eexists. split; [done|]. by repeat constructor.
      * split; [done|]. eexists. split; [done|]. by repeat constructor.
      * split; [done|]. exists []. rewrite app_nil_r. by repeat constructor.
      * split; [done|]. exists []. rewrite app_nil_r. by repeat constructor.
    + intros e' g [= <-] Hae Hg.
      destruct e as [code| | | |]; simpl in Hae; try done.
      simpl. by rewrite Hae, Hg.
Qed.

Lemma decorator_contract_witness :
  run (handle_cloudwatch_errors finds_existing {[ "group_name" := "g1" ]}) []
  = (Returns None,
     [EvLog INFO "Resource already exists: %s" [ArgStr "g1"] None]).
Proof.
  destruct (decorator_contract finds_existing {[ "group_name" := "g1" ]} [])
    as (_ & Hr & Ht).
  rewrite result_trace.
  rewrite (proj1 (Hr _ eq_refl)), (Ht _ "g1" eq_refl eq_refl eq_refl).
  reflexivity.
Defined.

(** ** Plain lines go through untouched *)

Lemma utf8_decode_ascii line :
  Forall (λ b, (Byte.to_N b < 128)%N) line →
  utf8_decode line = Some (Byte.to_N <$> line).
Proof.
  induction 1 as [|b line Hb _ IH]; [done|].
  cbn [utf8_decode]. apply N.ltb_lt in Hb.
  change (0x80)%N with 128%N. rewrite Hb, IH. done.
Qed.

(** X8: a line made of ASCII bytes only (the empty line included) always
    decodes, and its single event carries the line unchanged, byte for
    code point: nothing is stripped, not even the line feed at its end. *)
Theorem ascii_line_is_submitted_verbatim env cw args line h :
  Forall (λ b, (Byte.to_N b < 128)%N) line →
  put_calls (trace (write_logs_to_cloudwatch env cw args line) h) =
  [(aws_cloudwatch_group args, aws_cloudwatch_stream args,
    [LogEvent (epoch_ms env h) (Byte.to_N <$> line)])].
Proof.
  intros Hascii.
  rewrite trace_run, write_logs_to_cloudwatch_run, (utf8_decode_ascii _ Hascii).
  cbv zeta.
  destruct (put_log_events env h cw _ _ _) as [resp|e]; cbn [snd].
  - change (put_calls (?ev :: ?t)) with (put_calls [ev] ++ put_calls t).
    by rewrite put_calls_sent_record.
  - change (put_calls (?ev :: ?t)) with (put_calls [ev] ++ put_calls t).
    by rewrite put_calls_failure_record.
Qed.

Lemma ascii_line_is_submitted_verbatim_witness :
  Forall (λ b, (Byte.to_N b < 128)%N) hello_line ∧
  put_calls (trace (write_logs_to_cloudwatch (nominal [hello_line])
                      demo_client demo_args hello_line) []) =
  [("g1", "s1",
    [LogEvent 1700000000000 [104; 101; 108; 108; 111; 10]%N])].
Proof.
  assert (Forall (λ b, (Byte.to_N b < 128)%N) hello_line) as Hascii
    by (repeat constructor).
  split; [exact Hascii|].
  exact (ascii_line_is_submitted_verbatim (nominal [hello_line]) demo_client
           demo_args hello_line [] Hascii).
Defined.

(** ** Reading the stream back *)

Lemma log_events_run events h :
  run (log_events events) h =
  (if bool_decide (Forall (λ ev, is_Some (out_message ev)) events)
   then Returns tt else Raises (PyException "KeyError"),
   (λ m, EvLog INFO "Log event: %s" [ArgStr m] None)
     <$> leading_messages events).
Proof.
  revert h. induction events as [|ev events IH]; intros h; [done|].
  cbn [log_events leading_messages].
  destruct (out_message ev) as [m|] eqn:Hm.
  - rewrite run_bind. cbn [run logger_info]. rewrite IH.
    rewrite fmap_cons.
    destruct (decide (Forall (λ ev, is_Some (out_message ev)) events))
      as [Hall|Hnot].
    + rewrite !bool_decide_true; [done|..|done].
      constructor; [by rewrite Hm|done].
    + rewrite !bool_decide_false; [done|..|done].
      intros Hall. apply Hnot. by inversion Hall.
  - rewrite bool_decide_false; [done|].
    rewrite Forall_cons, Hm. intros [[? [=]] _].
Qed.

(** X9: [get_cloudwatch_logs] never raises an [Exception]: a failure of the
    request is logged once and the function returns normally; only an
    interrupt leaves it, unchanged and unlogged. *)
Theorem get_cloudwatch_logs_swallows_errors ask client g s h e :
  ask h client g s = Raises e →
  run (get_cloudwatch_logs ask client g s) h =
  if is_Exception e
  then (Returns tt, [EvLog ERROR "Error getting log events" [] (Some e)])
  else (Raises e, []).
Proof.
  intros Hask. unfold get_cloudwatch_logs.
  rewrite run_try_except, run_bind. cbn [run]. rewrite Hask.
  by destruct (is_Exception e).
Qed.

Lemma get_cloudwatch_logs_swallows_errors_witness :
  run (get_cloudwatch_logs
         (λ _ _ _ _, Raises (ClientError "ResourceNotFoundException"))
         demo_client "g1" "s1") [] =
  (Returns tt,
   [EvLog ERROR "Error getting log events" []
      (Some (ClientError "ResourceNotFoundException"))]).
Proof.
  exact (get_cloudwatch_logs_swallows_errors
           (λ _ _ _ _, Raises (ClientError "ResourceNotFoundException"))
           demo_client "g1" "s1" [] _ eq_refl).
Defined.

(** X10: when the request returns, [get_cloudwatch_logs] returns normally;
    it logs the messages of the events in order up to the first event
    without a message, and after them one error record when there is such
    an event: the events after it are never logged. *)
Theorem get_cloudwatch_logs_logs_leading_messages ask client g s h resp :
  ask h client g s = Returns resp →
  run (get_cloudwatch_logs ask client g s) h =
  (Returns tt,
   ((λ m, EvLog INFO "Log event: %s" [ArgStr m] None)
      <$> leading_messages (response_events resp))
   ++ if bool_decide (Forall (λ ev, is_Some (out_message ev))
                        (response_events resp))
      then []
      else [EvLog ERROR "Error getting log events" []
              (Some (PyException "KeyError"))]).
Proof.
  intros Hask. unfold get_cloudwatch_logs.
  rewrite run_try_except, run_bind. cbn [run]. rewrite Hask.
  change (log_events ?evs ?h') with (run (log_events evs) h').
  rewrite log_events_run.
  destruct (bool_decide _); simpl; by rewrite ?app_nil_r.
Qed.

Lemma get_cloudwatch_logs_logs_leading_messages_witness :
  run (get_cloudwatch_logs two_events_one_broken demo_client "g1" "s1") [] =
  (Returns tt,
   [EvLog INFO "Log event: %s" [ArgStr "hello"] None;
    EvLog ERROR "Error getting log events" []
      (Some (PyException "KeyError"))]).
Proof.
  exact (get_cloudwatch_logs_logs_leading_messages two_events_one_broken
           demo_client "g1" "s1" [] _ eq_refl).
Defined.

